(** * The text-metrics engine of the string counter (StringCounterApp)

    A shallow embedding of [StringCounterApp.update_count],
    [StringCounterApp.revert_string] and [StringCounterApp.clean_string]
    of GeometricObjects.py, together with the parts of the Python
    runtime they call ([str.strip], [str.split], and the five regular
    expressions handed to [re]).

    A Python [str] is a sequence of Unicode code points, and the [re]
    module and the [str] methods classify characters by the Unicode
    database, not by ASCII.  Characters are therefore code points ([N]),
    and the two classes the program relies on ([\d] and whitespace) are
    the Unicode ones. *)

From Equations Require Import Equations.
From Stdlib Require Import String Ascii List NArith ZArith Bool Lia.
Import ListNotations.

Local Open Scope N_scope.

(** ** Characters and strings *)

Module Py.

Definition char := N.
Definition str := list char.

(** An ASCII literal as a Python string. *)
Fixpoint lit (s : string) : str :=
  match s with
  | EmptyString => []
  | String a r => N_of_ascii a :: lit r
  end.

Definition in_range (lo hi : N) (c : char) : bool := (lo <=? c) && (c <=? hi).

(** The code points of general category Nd (Unicode 14.0), as closed
    intervals.  This is the class [\d] of a [str] pattern. *)
Definition decimal_ranges : list (N * N) :=
  [ (48, 57); (1632, 1641); (1776, 1785); (1984, 1993); (2406, 2415);
    (2534, 2543); (2662, 2671); (2790, 2799); (2918, 2927); (3046, 3055);
    (3174, 3183); (3302, 3311); (3430, 3439); (3558, 3567); (3664, 3673);
    (3792, 3801); (3872, 3881); (4160, 4169); (4240, 4249); (6112, 6121);
    (6160, 6169); (6470, 6479); (6608, 6617); (6784, 6793); (6800, 6809);
    (6992, 7001); (7088, 7097); (7232, 7241); (7248, 7257); (42528, 42537);
    (43216, 43225); (43264, 43273); (43472, 43481); (43504, 43513);
    (43600, 43609); (44016, 44025); (65296, 65305); (66720, 66729);
    (68912, 68921); (69734, 69743); (69872, 69881); (69942, 69951);
    (70096, 70105); (70384, 70393); (70736, 70745); (70864, 70873);
    (71248, 71257); (71360, 71369); (71472, 71481); (71904, 71913);
    (72016, 72025); (72784, 72793); (73040, 73049); (73120, 73129);
    (92768, 92777); (92864, 92873); (93008, 93017); (120782, 120831);
    (123200, 123209); (123632, 123641); (125264, 125273); (130032, 130041) ].

(** [\d] *)
Definition is_decimal (c : char) : bool :=
  existsb (fun r => in_range (fst r) (snd r) c) decimal_ranges.

(** The code points for which [str.isspace] holds.  [str.strip()],
    [str.split()] and the class [\s] of a [str] pattern all use this set:
    TAB..CR, FS..US, SPACE, NEL, NBSP, OGHAM SPACE MARK, EN QUAD..HAIR
    SPACE, LINE and PARAGRAPH SEPARATOR, NNBSP, MMSP, IDEOGRAPHIC SPACE. *)
Definition whitespace_points : list N :=
  [ 9; 10; 11; 12; 13; 28; 29; 30; 31; 32; 133; 160; 5760;
    8192; 8193; 8194; 8195; 8196; 8197; 8198; 8199; 8200; 8201; 8202;
    8232; 8233; 8239; 8287; 12288 ].

(** [\s] *)
Definition isspace (c : char) : bool := existsb (N.eqb c) whitespace_points.

Definition newline : char := 10.
Definition dot : char := 46.

(** [\.] *)
Definition is_dot (c : char) : bool := c =? dot.

(** [[.?!]] *)
Definition is_terminator (c : char) : bool := (c =? 46) || (c =? 63) || (c =? 33).

(** [[a-zA-Z]] (no IGNORECASE flag, so exactly the 52 ASCII letters) *)
Definition is_ascii_letter (c : char) : bool := in_range 97 122 c || in_range 65 90 c.

(** The truth value of a string: [not text] holds of the empty string only. *)
Definition truthy (s : str) : bool :=
  match s with
  | [] => false
  | _ :: _ => true
  end.

Definition str_eqb (a b : str) : bool :=
  if list_eq_dec N.eq_dec a b then true else false.

(** *** [str] methods *)

Fixpoint lstrip (s : str) : str :=
  match s with
  | [] => []
  | c :: r => if isspace c then lstrip r else s
  end.

Definition rstrip (s : str) : str := rev (lstrip (rev s)).

(** [s.strip()] *)
Definition strip (s : str) : str := rstrip (lstrip s).

(** [s.split()]: [tok] holds, reversed, the characters of the token being
    read; a whitespace character closes it, and empty tokens are never
    produced. *)
Fixpoint split_from (tok : str) (s : str) : list str :=
  match s with
  | [] => if truthy tok then [rev tok] else []
  | c :: r =>
      if isspace c
      then (if truthy tok then rev tok :: split_from [] r else split_from [] r)
      else split_from (c :: tok) r
  end.

Definition split (s : str) : list str := split_from [] s.

(** [s[::-1]] *)
Definition reversed (s : str) : str := rev s.

(** *** The regular expressions of the program *)

(** [re.findall(cls, text)] for a pattern that is one character class:
    one match, of one character, per character of the class. *)
Definition findall (cls : char -> bool) (text : str) : list str :=
  map (fun c => [c]) (filter cls text).

(** [re.fullmatch(r'\d+', word)] as a truth value. *)
Definition fullmatch_digits (word : str) : bool :=
  truthy word && forallb is_decimal word.

(** A value together with the equation that names it, so that a branch
    on a test keeps the outcome of the test. *)
Definition inspect {A : Type} (a : A) : {b : A | a = b} := exist _ a eq_refl.

(** The length of the greedy match of [\.*] at the start of [s]. *)
Fixpoint dots_prefix (s : str) : nat :=
  match s with
  | [] => 0%nat
  | c :: r => if is_dot c then S (dots_prefix r) else 0%nat
  end.

(** [re.sub(r'\.{2,}', '.', s)]: scanning from the left, a position where
    the greedy [\.{2,}] matches (two dots or more start there) yields one
    ['.'] and the scan resumes after the whole match; any other position
    copies its character. *)
Equations? sub_dots (s : str) : str by wf (List.length s) lt :=
  sub_dots [] := [];
  sub_dots (c :: r) with inspect (2 <=? dots_prefix (c :: r))%nat := {
    | exist _ true _ := dot :: sub_dots (skipn (dots_prefix (c :: r)) (c :: r));
    | exist _ false _ := c :: sub_dots r }.
Proof.
  destruct (is_dot c); [|discriminate].
  cbn [skipn]. pose proof (length_skipn (dots_prefix r) r). lia.
Qed.

(** [re.split(r'[.?!]', s)]: [seg] holds, reversed, the characters since
    the last match; every terminator closes a segment (possibly empty),
    and the rest of the string is the last segment. *)
Fixpoint split_terminators_from (seg : str) (s : str) : list str :=
  match s with
  | [] => [rev seg]
  | c :: r =>
      if is_terminator c
      then rev seg :: split_terminators_from [] r
      else split_terminators_from (c :: seg) r
  end.

Definition split_terminators (s : str) : list str := split_terminators_from [] s.

(** [$] without MULTILINE: at the end of the string, or just before a
    newline that is the last character. *)
Definition at_dollar (s : str) : bool :=
  match s with
  | [] => true
  | [c] => c =? newline
  | _ => false
  end.

(** [\s*$] matches at the start of [s]: after some number of whitespace
    characters the position satisfies [$]. *)
Fixpoint match_spaces_dollar (s : str) : bool :=
  at_dollar s ||
  match s with
  | [] => false
  | c :: r => isspace c && match_spaces_dollar r
  end.

(** [bool(re.search(r'[.?!]\s*$', s))]: some position starts a match. *)
Fixpoint search_terminator_end (s : str) : bool :=
  match s with
  | [] => false
  | c :: r => (is_terminator c && match_spaces_dollar r) || search_terminator_end r
  end.

End Py.

(** ** The application *)

Module StringCounterApp.
Import Py.

Local Open Scope Z_scope.

(** The state the three methods read and write: the contents of the text
    widget, the selected mode, and the two labels.  A label is kept as
    the values of the holes of its f-string: [result_text] is
    [f"{mode} Count: {count}"], [number_count_text] is
    [f"Numbers Count: {number_count}"]. *)
Record App := {
  input_text : str;
  count_mode : str;
  result_text : str * Z;
  number_count_text : Z
}.

(** [self.input_text.get("1.0", tk.END)]: the contents of the widget
    followed by the newline a Tk text widget always ends with. *)
Definition get_all (content : str) : str := content ++ [newline].

(** [len(re.findall(r'\d', text))] *)
Definition number_count (text : str) : Z :=
  Z.of_nat (List.length (findall is_decimal text)).

(** [len(re.findall(r'[a-zA-Z]', text))] *)
Definition letters_count (text : str) : Z :=
  Z.of_nat (List.length (findall is_ascii_letter text)).

(** [valid_words] and its length. *)
Definition valid_words (text : str) : list str :=
  filter (fun word => negb (fullmatch_digits word)) (split text).

Definition words_count (text : str) : Z := Z.of_nat (List.length (valid_words text)).

(** [valid_segments]: the stripped segments whose stripped form is not
    empty. *)
Definition valid_segments (text : str) : list str :=
  let text_normalized := sub_dots text in
  let sentences := split_terminators text_normalized in
  map strip (filter (fun s => truthy (strip s)) sentences).

(** The value of [count] after step 3 of the Sentences branch. *)
Definition provisional_count (text : str) : Z :=
  Z.of_nat (List.length (valid_segments text)).

(** The Sentences branch, steps 1 to 4 and the final [max]. *)
Definition sentences_count (text : str) : Z :=
  let count := provisional_count text in
  let text_ends_with_terminator := search_terminator_end text in
  let count :=
    if 0 <? count
    then (if negb text_ends_with_terminator then count - 1 else count)
    else count in
  Z.max 0 count.

(** The value of [count] when [update_count] reaches its last line. *)
Definition primary_count (text mode : str) : Z :=
  if negb (truthy text) then 0
  else if str_eqb mode (lit "Letters") then letters_count text
  else if str_eqb mode (lit "Words") then words_count text
  else if str_eqb mode (lit "Sentences") then sentences_count text
  else 0.

Definition update_count (app : App) : App :=
  let text := strip (get_all (input_text app)) in
  let mode := count_mode app in
  {| input_text := input_text app;
     count_mode := mode;
     result_text := (mode, primary_count text mode);
     number_count_text := number_count text |}.

Definition set_input (app : App) (content : str) : App :=
  {| input_text := content;
     count_mode := count_mode app;
     result_text := result_text app;
     number_count_text := number_count_text app |}.

Definition revert_string (app : App) : App :=
  let text := strip (get_all (input_text app)) in
  if truthy text
  then update_count (set_input app (reversed text))
  else app.

Definition clean_string (app : App) : App :=
  update_count (set_input app []).

(** *** The engine interface

    The operation [compute(text, mode)] of the specification is
    [update_count] run on a widget that holds [text] with [mode]
    selected; its result is the pair of counts the two labels show. *)
Record MetricsResult := {
  primaryCount : Z;
  digitCount : Z
}.

Definition compute (text mode : str) : MetricsResult :=
  let app := update_count {| input_text := text;
                             count_mode := mode;
                             result_text := (lit "Letters", 0);
                             number_count_text := 0 |} in
  {| primaryCount := snd (result_text app);
     digitCount := number_count_text app |}.

(** How a call ends: it returns, or it raises. *)
Inductive error := InvalidMode.

Inductive outcome :=
| Returned (r : MetricsResult)
| Raised (e : error).

(** No statement of [update_count] raises: every path through the
    if/elif chain, the one that takes no branch included, reaches the
    last line. *)
Definition compute_outcome (text mode : str) : outcome :=
  Returned (compute text mode).

Definition Letters : str := lit "Letters".
Definition Words : str := lit "Words".
Definition Sentences : str := lit "Sentences".

Definition recognized (mode : str) : bool :=
  str_eqb mode Letters || str_eqb mode Words || str_eqb mode Sentences.

End StringCounterApp.

(** ** The geometric calculator *)

Module GeometryApp.
Import Py.

Local Open Scope Z_scope.

(** A [dict] with string keys, in insertion order; the keys of the
    dictionaries of the program are distinct. *)
Definition dict (V : Type) : Type := list (str * V).

(** [d.get(key)], [None] when the key is missing. *)
Fixpoint dict_get {V : Type} (d : dict V) (key : str) : option V :=
  match d with
  | [] => None
  | (k, v) :: rest => if str_eqb key k then Some v else dict_get rest key
  end.

(** [d.keys()] *)
Definition keys {V : Type} (d : dict V) : list str := map fst d.

(** The six classes derived from [Shape]. *)
Inductive shape_class :=
| Circle | Rectangle | Triangle | Block | Sphere | Tetrahedron.

(** [cls.__name__] *)
Definition class_name (cls : shape_class) : str :=
  match cls with
  | Circle => lit "Circle"
  | Rectangle => lit "Rectangle"
  | Triangle => lit "Triangle"
  | Block => lit "Block"
  | Sphere => lit "Sphere"
  | Tetrahedron => lit "Tetrahedron"
  end.

(** An entry of [SHAPE_MAP]: the keys ["class"] and ["params"]. *)
Record shape_info := {
  info_class : shape_class;
  info_params : list str
}.

Definition SHAPE_MAP : dict (dict shape_info) :=
  [ (lit "2D",
     [ (lit "Circle", {| info_class := Circle; info_params := [lit "Radius"] |});
       (lit "Rectangle",
        {| info_class := Rectangle; info_params := [lit "Width"; lit "Height"] |});
       (lit "Triangle",
        {| info_class := Triangle; info_params := [lit "Base"; lit "Height"] |}) ]);
    (lit "3D",
     [ (lit "Block",
        {| info_class := Block;
           info_params := [lit "Length"; lit "Width"; lit "Height"] |});
       (lit "Sphere", {| info_class := Sphere; info_params := [lit "Radius"] |});
       (lit "Tetrahedron",
        {| info_class := Tetrahedron; info_params := [lit "Edge Length"] |}) ]) ].

(** The loop of [_show_shape_selection] that grids the buttons: each
    name is placed at [(row, col)], then [col] is advanced and wraps to
    the next row once it exceeds 1. *)
Fixpoint place_buttons (names : list str) (col row : Z) : list (str * (Z * Z)) :=
  match names with
  | [] => []
  | name :: rest =>
      let placed := (name, (row, col)) in
      let col := col + 1 in
      if col >? 1
      then placed :: place_buttons rest 0 (row + 1)
      else placed :: place_buttons rest col row
  end.

(** The buttons [_show_shape_selection] creates, each with its cell:
    none when [SHAPE_MAP] has no entry for the type
    ([SHAPE_MAP.get(shape_type, {})] and [if not shapes: return]). *)
Definition show_shape_selection (shape_type : str) : list (str * (Z * Z)) :=
  match dict_get SHAPE_MAP shape_type with
  | None => []
  | Some shapes =>
      match shapes with
      | [] => []
      | _ :: _ => place_buttons (keys shapes) 0 0
      end
  end.

(** The numbers of the shapes are Python floats; the constructors only
    compare them with zero, so the number type and the test [x < 0] are
    left open. *)
Section Shapes.

Variable num : Type.
Variable negative : num -> bool.

(** An instance: the class with its attributes. *)
Inductive shape :=
| circle (r : num)
| rectangle (w h : num)
| triangle (b h : num)
| block (l w h : num)
| sphere (r : num)
| tetrahedron (a : num).

Inductive exn :=
| ValueError (message : str)
| TypeError.

(** The call of the class on the unpacked list [values]: a call with the
    wrong number of arguments is a [TypeError]; otherwise [__init__] raises [ValueError] on a negative
    argument and stores the arguments. *)
Definition construct (cls : shape_class) (values : list num) : exn + shape :=
  match cls, values with
  | Circle, [radius] =>
      if negative radius then inl (ValueError (lit "Radius must be non-negative."))
      else inr (circle radius)
  | Rectangle, [width; height] =>
      if negative width || negative height
      then inl (ValueError (lit "Dimensions must be non-negative."))
      else inr (rectangle width height)
  | Triangle, [base; height] =>
      if negative base || negative height
      then inl (ValueError (lit "Dimensions must be non-negative."))
      else inr (triangle base height)
  | Block, [length; width; height] =>
      if negative length || negative width || negative height
      then inl (ValueError (lit "Dimensions must be non-negative."))
      else inr (block length width height)
  | Sphere, [radius] =>
      if negative radius then inl (ValueError (lit "Radius must be non-negative."))
      else inr (sphere radius)
  | Tetrahedron, [edge] =>
      if negative edge
      then inl (ValueError (lit "Edge length must be non-negative."))
      else inr (tetrahedron edge)
  | _, _ => inl TypeError
  end.

(** [get_params] *)
Definition get_params (s : shape) : dict num :=
  match s with
  | circle r => [(lit "Radius", r)]
  | rectangle w h => [(lit "Width", w); (lit "Height", h)]
  | triangle b h => [(lit "Base", b); (lit "Height", h)]
  | block l w h => [(lit "Length", l); (lit "Width", w); (lit "Height", h)]
  | sphere r => [(lit "Radius", r)]
  | tetrahedron a => [(lit "Edge Length", a)]
  end.

(** [__str__]: the name of the class of the instance. *)
Definition to_str (s : shape) : str :=
  match s with
  | circle _ => class_name Circle
  | rectangle _ _ => class_name Rectangle
  | triangle _ _ => class_name Triangle
  | block _ _ _ => class_name Block
  | sphere _ => class_name Sphere
  | tetrahedron _ => class_name Tetrahedron
  end.

End Shapes.

Arguments circle {num}.
Arguments rectangle {num}.
Arguments triangle {num}.
Arguments block {num}.
Arguments sphere {num}.
Arguments tetrahedron {num}.
Arguments construct {num}.
Arguments get_params {num}.
Arguments to_str {num}.

(** The cell of the [k]-th button. *)
Definition cell (k : Z) : Z * Z := (k / 2, k mod 2).

End GeometryApp.

(** ** The function plotter *)

Module FunctionPlotterApp.
Import Py.

Definition Radians : str := lit "Radians".
Definition Degrees : str := lit "Degrees".

(** [_toggle_units], on the value of [unit_var]. *)
Definition toggle_units (unit_var : str) : str :=
  if str_eqb unit_var (lit "Radians") then lit "Degrees" else lit "Radians".

End FunctionPlotterApp.

(** ** The specification's own words

    Definitions that follow the prose of the specification, to be
    compared with the program above. *)

Module Spec.
Import Py.

Local Open Scope Z_scope.

(** The ASCII digits ['0'] to ['9']. *)
Definition ascii_digit (c : char) : bool := in_range 48 57 c.

(** The letters ['a'] to ['z'] and ['A'] to ['Z']. *)
Definition ascii_letter (c : char) : bool :=
  in_range (N_of_ascii "a") (N_of_ascii "z") c ||
  in_range (N_of_ascii "A") (N_of_ascii "Z") c.

(** The number of characters of a class anywhere in a text, each
    character counted once (a brute-force scan). *)
Fixpoint count (cls : char -> bool) (text : str) : Z :=
  match text with
  | [] => 0
  | c :: r => (if cls c then 1 else 0) + count cls r
  end.

(** The tokens of a text: its maximal substrings free of whitespace, in
    order.  None is empty. *)
Fixpoint tokens (s : str) : list str :=
  match s with
  | [] => []
  | c :: r =>
      if isspace c then tokens r
      else match r with
           | [] => [[c]]
           | d :: _ =>
               if isspace d then [c] :: tokens r
               else match tokens r with
                    | tok :: toks => (c :: tok) :: toks
                    | [] => [[c]]
                    end
           end
  end.

(** The text as its maximal runs of one repeated character. *)
Fixpoint runs (s : str) : list str :=
  match s with
  | [] => []
  | c :: r =>
      match runs r with
      | (d :: run) :: rest =>
          if (c =? d)%N then (c :: d :: run) :: rest else [c] :: (d :: run) :: rest
      | _ => [[c]]
      end
  end.

(** A run of two or more ['.'] becomes a single ['.']; any other run is
    kept. *)
Definition collapse_run (run : str) : str :=
  match run with
  | c :: _ :: _ => if is_dot c then [dot] else run
  | _ => run
  end.

(** Step 1: normalize. *)
Definition normalize (text : str) : str := concat (map collapse_run (runs text)).

(** Step 2: every terminator is a split point and belongs to no segment. *)
Fixpoint split_at_terminators (s : str) : list str :=
  match s with
  | [] => [[]]
  | c :: r =>
      if is_terminator c then [] :: split_at_terminators r
      else match split_at_terminators r with
           | seg :: segs => (c :: seg) :: segs
           | [] => [[c]]
           end
  end.

(** Step 3: the segments that are not empty once trimmed, counted. *)
Definition provisional_count (text : str) : Z :=
  Z.of_nat (List.length
              (filter (fun seg => truthy (strip seg))
                      (split_at_terminators (normalize text)))).

(** The text ends with a terminator optionally followed only by
    whitespace. *)
Definition EndsWithTerminator (text : str) : Prop :=
  exists before c after,
    text = before ++ c :: after /\
    is_terminator c = true /\
    Forall (fun x => isspace x = true) after.

(** A string of whitespace characters. *)
Definition Whitespace (w : str) : Prop := Forall (fun x => isspace x = true) w.

End Spec.

(** ** Auxiliary functions of the proofs *)

Module Aux.
Import Py.

(** Only whitespace. *)
Definition blank (s : str) : bool := forallb isspace s.

Definition starts_with_dot (s : str) : bool :=
  match s with
  | [] => false
  | c :: _ => is_dot c
  end.

(** Every dot that another dot follows is dropped. *)
Fixpoint squeeze (s : str) : str :=
  match s with
  | [] => []
  | c :: r => if is_dot c && starts_with_dot r then squeeze r else c :: squeeze r
  end.

(** The last character that is not whitespace is a terminator. *)
Fixpoint ends_term (s : str) : bool :=
  match s with
  | [] => false
  | c :: r => if blank r then is_terminator c else ends_term r
  end.

(** The number of segments with a character that is not whitespace. *)
Definition nonblank_segments (segs : list str) : nat :=
  List.length (filter (fun seg => negb (blank seg)) segs).

(** Two dots in a row somewhere. *)
Fixpoint has_double_dot (s : str) : bool :=
  match s with
  | [] => false
  | c :: r => (is_dot c && starts_with_dot r) || has_double_dot r
  end.

(** No terminator anywhere. *)
Definition terminator_free (s : str) : bool :=
  forallb (fun c => negb (is_terminator c)) s.

(** The string is empty or its last character is whitespace. *)
Definition ends_space (s : str) : bool :=
  match rev s with
  | [] => true
  | d :: _ => isspace d
  end.

(** A token that is not made of decimal digits only. *)
Definition counted (tok : str) : bool := negb (forallb is_decimal tok).

End Aux.

Import Py StringCounterApp Aux.
Local Open Scope Z_scope.

(** ** Character classes *)

Lemma isspace_In (c : char) : isspace c = true -> In c whitespace_points.
Proof.
  unfold isspace. intros H. apply existsb_exists in H.
  destruct H as [x [Hin Heq]]. apply N.eqb_eq in Heq. now subst.
Qed.

Ltac each_space H :=
  apply isspace_In in H; unfold whitespace_points in H; cbn [In] in H;
  repeat (destruct H as [H|H]; [subst; vm_compute; reflexivity|]);
  contradiction.

Lemma space_not_decimal (c : char) : isspace c = true -> is_decimal c = false.
Proof. intros H. each_space H. Qed.

Lemma space_not_letter (c : char) : isspace c = true -> is_ascii_letter c = false.
Proof. intros H. each_space H. Qed.

Lemma space_not_terminator (c : char) : isspace c = true -> is_terminator c = false.
Proof. intros H. each_space H. Qed.

Lemma space_not_dot (c : char) : isspace c = true -> is_dot c = false.
Proof. intros H. each_space H. Qed.

Lemma dot_is_terminator (c : char) : is_dot c = true -> is_terminator c = true.
Proof.
  unfold is_dot, is_terminator, dot. intros H. rewrite H. reflexivity.
Qed.

Lemma is_dot_eq (c : char) : is_dot c = true <-> c = dot.
Proof. unfold is_dot. apply N.eqb_eq. Qed.

Lemma spec_letter_agrees (c : char) : Spec.ascii_letter c = is_ascii_letter c.
Proof. reflexivity. Qed.

Arguments isspace : simpl never.
Arguments is_decimal : simpl never.
Arguments is_terminator : simpl never.
Arguments is_dot : simpl never.
Arguments is_ascii_letter : simpl never.

(** ** [strip] *)

Lemma blank_cons (c : char) (r : str) : blank (c :: r) = isspace c && blank r.
Proof. reflexivity. Qed.

Lemma blank_app (x y : str) : blank (x ++ y) = blank x && blank y.
Proof. apply forallb_app. Qed.

Lemma blank_rev (s : str) : blank (rev s) = blank s.
Proof.
  induction s as [|c r IH]; [reflexivity|].
  cbn [rev]. rewrite blank_app, IH. cbn. rewrite andb_true_r. apply andb_comm.
Qed.

Lemma blank_Whitespace (w : str) : Spec.Whitespace w <-> blank w = true.
Proof.
  unfold Spec.Whitespace, blank. rewrite forallb_forall, Forall_forall. reflexivity.
Qed.

Lemma lstrip_app (x y : str) :
  lstrip (x ++ y) = if blank x then lstrip y else lstrip x ++ y.
Proof.
  induction x as [|c r IH]; [reflexivity|].
  cbn. destruct (isspace c); [exact IH|reflexivity].
Qed.

Lemma lstrip_blank (s : str) : blank s = true -> lstrip s = [].
Proof.
  induction s as [|c r IH]; [reflexivity|].
  cbn. destruct (isspace c); [exact IH|discriminate].
Qed.

Lemma lstrip_nil_blank (s : str) : lstrip s = [] -> blank s = true.
Proof.
  induction s as [|c r IH]; [reflexivity|].
  cbn. destruct (isspace c); [exact IH|discriminate].
Qed.

Lemma lstrip_head (s : str) (c : char) (r : str) :
  lstrip s = c :: r -> isspace c = false.
Proof.
  induction s as [|d t IH]; [discriminate|].
  cbn. destruct (isspace d) eqn:E; [exact IH|].
  intros H. injection H as -> _. exact E.
Qed.

Lemma rstrip_cons (c : char) (r : str) :
  rstrip (c :: r) = if isspace c && blank r then [] else c :: rstrip r.
Proof.
  unfold rstrip. cbn [rev]. rewrite lstrip_app, blank_rev.
  destruct (blank r) eqn:Er.
  - rewrite andb_true_r. rewrite (lstrip_blank (rev r)) by now rewrite blank_rev.
    cbn. destruct (isspace c); reflexivity.
  - rewrite andb_false_r. rewrite rev_app_distr. reflexivity.
Qed.

Lemma rstrip_blank (s : str) : blank s = true -> rstrip s = [].
Proof.
  intros H. unfold rstrip. rewrite lstrip_blank; [reflexivity|].
  now rewrite blank_rev.
Qed.

Lemma rstrip_app_blank (s w : str) : blank w = true -> rstrip (s ++ w) = rstrip s.
Proof.
  intros H. unfold rstrip. rewrite rev_app_distr, lstrip_app, blank_rev, H.
  reflexivity.
Qed.

Lemma lstrip_decompose (s : str) : exists w, blank w = true /\ s = w ++ lstrip s.
Proof.
  induction s as [|c r [w [Hw Hs]]].
  - exists []. split; reflexivity.
  - cbn [lstrip]. destruct (isspace c) eqn:E.
    + exists (c :: w). split; [cbn; now rewrite E|]. cbn. now rewrite <- Hs.
    + exists []. split; reflexivity.
Qed.

Lemma rstrip_decompose (s : str) : exists w, blank w = true /\ s = rstrip s ++ w.
Proof.
  destruct (lstrip_decompose (rev s)) as [w [Hw Hs]].
  exists (rev w). split; [now rewrite blank_rev|].
  unfold rstrip. rewrite <- rev_app_distr, <- Hs. symmetry. apply rev_involutive.
Qed.

Lemma strip_decompose (s : str) :
  exists w1 w2, blank w1 = true /\ blank w2 = true /\ s = w1 ++ strip s ++ w2.
Proof.
  destruct (lstrip_decompose s) as [w1 [H1 Hs1]].
  destruct (rstrip_decompose (lstrip s)) as [w2 [H2 Hs2]].
  exists w1, w2. repeat split; try assumption.
  unfold strip. now rewrite <- Hs2.
Qed.

Lemma strip_pad_l (w s : str) : blank w = true -> strip (w ++ s) = strip s.
Proof. intros H. unfold strip. now rewrite lstrip_app, H. Qed.

Lemma strip_pad_r (s w : str) : blank w = true -> strip (s ++ w) = strip s.
Proof.
  intros H. unfold strip. rewrite lstrip_app.
  destruct (blank s) eqn:Es.
  - now rewrite !lstrip_blank.
  - now apply rstrip_app_blank.
Qed.

Lemma strip_pad (w1 s w2 : str) :
  blank w1 = true -> blank w2 = true -> strip (w1 ++ s ++ w2) = strip s.
Proof. intros H1 H2. now rewrite strip_pad_l, strip_pad_r. Qed.

Lemma truthy_lstrip (s : str) : truthy (lstrip s) = negb (blank s).
Proof.
  induction s as [|c r IH]; [reflexivity|].
  cbn. destruct (isspace c); [exact IH|reflexivity].
Qed.

Lemma truthy_rev (s : str) : truthy (rev s) = truthy s.
Proof.
  destruct s as [|c r]; [reflexivity|].
  cbn [rev]. destruct (rev r); reflexivity.
Qed.

Lemma truthy_rstrip (s : str) : truthy (rstrip s) = negb (blank s).
Proof. unfold rstrip. now rewrite truthy_rev, truthy_lstrip, blank_rev. Qed.

Lemma blank_lstrip (s : str) : blank (lstrip s) = blank s.
Proof.
  induction s as [|c r IH]; [reflexivity|].
  cbn [lstrip]. destruct (isspace c) eqn:E; [|reflexivity].
  cbn. now rewrite E, IH.
Qed.

Lemma truthy_strip (s : str) : truthy (strip s) = negb (blank s).
Proof. unfold strip. now rewrite truthy_rstrip, blank_lstrip. Qed.

Lemma strip_blank (s : str) : blank s = true -> strip s = [].
Proof.
  intros H. pose proof (truthy_strip s) as T. rewrite H in T.
  destruct (strip s); [reflexivity|discriminate].
Qed.

Lemma lstrip_fixed (s : str) : isspace (hd newline s) = false -> lstrip s = s.
Proof.
  destruct s as [|c r]; [reflexivity|]. cbn. now intros ->.
Qed.

Lemma rstrip_rev (s : str) : rstrip (rev s) = rev (lstrip s).
Proof. unfold rstrip. now rewrite rev_involutive. Qed.

Lemma lstrip_rev (s : str) : lstrip (rev s) = rev (rstrip s).
Proof. unfold rstrip. now rewrite rev_involutive. Qed.

Lemma lstrip_rstrip (s : str) : lstrip (rstrip s) = rstrip (lstrip s).
Proof.
  induction s as [|c r IH]; [reflexivity|].
  rewrite rstrip_cons. cbn [lstrip].
  destruct (isspace c) eqn:E; cbn [andb].
  - destruct (blank r) eqn:Er.
    + cbn. rewrite lstrip_blank by assumption. reflexivity.
    + cbn [lstrip]. now rewrite E.
  - cbn [lstrip]. rewrite E, rstrip_cons, E. reflexivity.
Qed.

Lemma lstrip_idem (s : str) : lstrip (lstrip s) = lstrip s.
Proof.
  induction s as [|c r IH]; [reflexivity|].
  cbn [lstrip]. destruct (isspace c) eqn:E; [exact IH|]. cbn. now rewrite E.
Qed.

Lemma strip_idem (s : str) : strip (strip s) = strip s.
Proof.
  unfold strip. rewrite lstrip_rstrip, lstrip_idem.
  unfold rstrip. now rewrite rev_involutive, lstrip_idem.
Qed.

Lemma strip_rev (s : str) : strip (rev s) = rev (strip s).
Proof.
  unfold strip. rewrite lstrip_rev, rstrip_rev, <- lstrip_rstrip. reflexivity.
Qed.

(** ** Counting the characters of a class *)

Lemma findall_length (cls : char -> bool) (s : str) :
  Z.of_nat (List.length (findall cls s)) = Spec.count cls s.
Proof.
  unfold findall. rewrite length_map.
  induction s as [|c r IH]; [reflexivity|].
  cbn [filter Spec.count]. destruct (cls c); cbn [List.length]; lia.
Qed.

Lemma count_app (cls : char -> bool) (x y : str) :
  Spec.count cls (x ++ y) = Spec.count cls x + Spec.count cls y.
Proof.
  induction x as [|c r IH]; [reflexivity|].
  cbn [app Spec.count]. lia.
Qed.

Lemma count_rev (cls : char -> bool) (s : str) :
  Spec.count cls (rev s) = Spec.count cls s.
Proof.
  induction s as [|c r IH]; [reflexivity|].
  cbn [rev]. rewrite count_app, IH. cbn [Spec.count]. lia.
Qed.

Lemma count_nonneg (cls : char -> bool) (s : str) : 0 <= Spec.count cls s.
Proof.
  induction s as [|c r IH]; [reflexivity|].
  cbn [Spec.count]. destruct (cls c); lia.
Qed.

Lemma count_ext (f g : char -> bool) (s : str) :
  (forall c, f c = g c) -> Spec.count f s = Spec.count g s.
Proof.
  intros E. induction s as [|c r IH]; [reflexivity|].
  cbn [Spec.count]. now rewrite E, IH.
Qed.

Section SpaceFreeClass.

Variable cls : char -> bool.
Hypothesis cls_space : forall c, isspace c = true -> cls c = false.

Lemma count_blank (w : str) : blank w = true -> Spec.count cls w = 0.
Proof.
  induction w as [|c r IH]; [reflexivity|].
  cbn. intros H. apply andb_true_iff in H. destruct H as [Hc Hr].
  rewrite (cls_space c Hc), IH by assumption. reflexivity.
Qed.

Lemma count_strip (s : str) : Spec.count cls (strip s) = Spec.count cls s.
Proof.
  destruct (strip_decompose s) as [w1 [w2 [H1 [H2 E]]]].
  rewrite E at 2. rewrite !count_app, (count_blank w1 H1), (count_blank w2 H2). lia.
Qed.

End SpaceFreeClass.

(** ** The text [update_count] works on *)

Lemma blank_newline : blank [newline] = true.
Proof. reflexivity. Qed.

Lemma widget_text (content : str) : strip (get_all content) = strip content.
Proof. unfold get_all. apply strip_pad_r. exact blank_newline. Qed.

Lemma compute_unfold (text mode : str) :
  compute text mode =
  {| primaryCount := primary_count (strip text) mode;
     digitCount := number_count (strip text) |}.
Proof.
  unfold compute, update_count.
  cbn [input_text count_mode result_text number_count_text snd].
  now rewrite widget_text.
Qed.

Lemma digitCount_count (text mode : str) :
  digitCount (compute text mode) = Spec.count is_decimal text.
Proof.
  rewrite compute_unfold. cbn. unfold number_count.
  rewrite findall_length. apply count_strip. exact space_not_decimal.
Qed.

Lemma str_eqb_refl (s : str) : str_eqb s s = true.
Proof. unfold str_eqb. destruct (list_eq_dec N.eq_dec s s); congruence. Qed.

Lemma str_eqb_eq (a b : str) : str_eqb a b = true <-> a = b.
Proof.
  unfold str_eqb. destruct (list_eq_dec N.eq_dec a b); split; congruence.
Qed.

Lemma primary_Letters (text : str) :
  primary_count text Letters = letters_count text.
Proof.
  unfold primary_count. destruct text as [|c r]; reflexivity.
Qed.

Lemma primary_Words (text : str) :
  primary_count text Words = words_count text.
Proof.
  unfold primary_count. destruct text as [|c r]; reflexivity.
Qed.

Lemma primary_Sentences (text : str) :
  primary_count text Sentences = sentences_count text.
Proof.
  unfold primary_count. destruct text as [|c r]; reflexivity.
Qed.

Lemma primary_unrecognized (text mode : str) :
  recognized mode = false -> primary_count text mode = 0.
Proof.
  unfold recognized, primary_count. intros H.
  apply orb_false_iff in H. destruct H as [H Hs].
  apply orb_false_iff in H. destruct H as [Hl Hw].
  unfold Letters, Words, Sentences in *. rewrite Hl, Hw, Hs.
  destruct (truthy text); reflexivity.
Qed.

Lemma letters_count_count (text : str) :
  primaryCount (compute text Letters) = Spec.count Spec.ascii_letter text.
Proof.
  rewrite compute_unfold. cbn [primaryCount]. rewrite primary_Letters.
  unfold letters_count. rewrite findall_length.
  rewrite (count_strip _ space_not_letter).
  apply count_ext. intros c. symmetry. apply spec_letter_agrees.
Qed.

(** ** Sentences: normalization *)

Lemma dots_prefix_no_dot (s : str) : starts_with_dot s = false -> dots_prefix s = 0%nat.
Proof.
  destruct s as [|c r]; [reflexivity|]. cbn. now intros ->.
Qed.

Lemma squeeze_run (s : str) :
  (1 <= dots_prefix s)%nat ->
  squeeze s = dot :: squeeze (skipn (dots_prefix s) s).
Proof.
  induction s as [|c r IH]; cbn [dots_prefix]; [lia|].
  destruct (is_dot c) eqn:Ec; [|lia]. intros _.
  cbn [squeeze skipn]. rewrite Ec. cbn [andb].
  destruct (starts_with_dot r) eqn:Er.
  - apply IH. destruct r as [|d t]; [discriminate|].
    cbn in Er. cbn [dots_prefix]. rewrite Er. lia.
  - rewrite (dots_prefix_no_dot r Er). cbn [skipn].
    apply is_dot_eq in Ec. now subst c.
Qed.

Lemma sub_dots_squeeze (s : str) : sub_dots s = squeeze s.
Proof.
  funelim (sub_dots s).
  - reflexivity.
  - rewrite H. symmetry. apply squeeze_run.
    pose proof (proj1 (Nat.leb_le _ _) e). lia.
  - rewrite H. cbn [squeeze].
    destruct (is_dot c) eqn:Ec; [|reflexivity].
    destruct (starts_with_dot r) eqn:Er; [|reflexivity].
    exfalso. destruct r as [|d t]; [discriminate|].
    cbn in Er. pose proof e as e'. cbn [dots_prefix] in e'.
    rewrite Ec, Er in e'. discriminate.
Qed.

Lemma runs_cons_shape (c : char) (r : str) :
  exists run rest, Spec.runs (c :: r) = (c :: run) :: rest.
Proof.
  cbn [Spec.runs]. destruct (Spec.runs r) as [|[|d run] rest]; eauto.
  destruct (c =? d)%N; eauto.
Qed.

Lemma collapse_run_dots (c : char) (run : str) :
  is_dot c = true -> Spec.collapse_run (c :: c :: run) = Spec.collapse_run (c :: run).
Proof.
  intros Ec. cbn [Spec.collapse_run]. rewrite Ec.
  destruct run; [|reflexivity]. apply is_dot_eq in Ec. now subst.
Qed.

Lemma collapse_run_other (c : char) (run : str) :
  is_dot c = false -> Spec.collapse_run (c :: run) = c :: run.
Proof.
  intros Ec. cbn [Spec.collapse_run]. rewrite Ec. destruct run; reflexivity.
Qed.

Lemma squeeze_cons2 (c d : char) (t : str) :
  squeeze (c :: d :: t) =
  if is_dot c && is_dot d then squeeze (d :: t) else c :: squeeze (d :: t).
Proof. reflexivity. Qed.

Lemma runs_cons2 (c d : char) (t : str) :
  Spec.runs (c :: d :: t) =
  match Spec.runs (d :: t) with
  | (d' :: run') :: rest' =>
      if (c =? d')%N then (c :: d' :: run') :: rest'
      else [c] :: (d' :: run') :: rest'
  | _ => [[c]]
  end.
Proof. reflexivity. Qed.

Lemma normalize_squeeze (s : str) : Spec.normalize s = squeeze s.
Proof.
  unfold Spec.normalize.
  induction s as [|c r IH]; [reflexivity|].
  destruct r as [|d t]; [cbn; now rewrite andb_false_r|].
  destruct (runs_cons_shape d t) as [run [rest E]].
  rewrite runs_cons2, squeeze_cons2. rewrite E in IH |- *.
  cbn [map concat] in IH.
  destruct (c =? d)%N eqn:Ecd.
  - apply N.eqb_eq in Ecd. subst d. cbn [map concat].
    destruct (is_dot c) eqn:Ec; cbn [andb].
    + rewrite collapse_run_dots by assumption. exact IH.
    + rewrite collapse_run_other by assumption.
      rewrite collapse_run_other in IH by assumption.
      cbn [app] in *. now rewrite IH.
  - cbn [map concat]. change (Spec.collapse_run [c]) with [c].
    cbn [app]. rewrite IH.
    destruct (is_dot c) eqn:Ec; [|reflexivity].
    destruct (is_dot d) eqn:Ed; [|reflexivity].
    apply is_dot_eq in Ec, Ed. subst. now rewrite N.eqb_refl in Ecd.
Qed.

(** ** Sentences: splitting and counting *)

Lemma split_at_nonempty (s : str) : Spec.split_at_terminators s <> [].
Proof.
  destruct s as [|c r]; cbn; [discriminate|].
  destruct (is_terminator c); [discriminate|].
  destruct (Spec.split_at_terminators r); discriminate.
Qed.

Lemma split_terminators_from_spec (seg s : str) :
  split_terminators_from seg s =
  match Spec.split_at_terminators s with
  | h :: t => (rev seg ++ h) :: t
  | [] => [rev seg]
  end.
Proof.
  revert seg. induction s as [|c r IH]; intros seg.
  - cbn. now rewrite app_nil_r.
  - cbn [split_terminators_from Spec.split_at_terminators].
    destruct (is_terminator c).
    + rewrite app_nil_r, IH.
      destruct (Spec.split_at_terminators r) as [|h t] eqn:E; [|reflexivity].
      now apply split_at_nonempty in E.
    + rewrite IH. cbn [rev].
      destruct (Spec.split_at_terminators r) as [|h t] eqn:E.
      * now apply split_at_nonempty in E.
      * now rewrite <- app_assoc.
Qed.

Lemma split_terminators_spec (s : str) :
  split_terminators s = Spec.split_at_terminators s.
Proof.
  unfold split_terminators. rewrite split_terminators_from_spec.
  destruct (Spec.split_at_terminators s) eqn:E; [|reflexivity].
  now apply split_at_nonempty in E.
Qed.

Lemma nonblank_segments_map (segs : list str) :
  nonblank_segments segs = List.length (filter negb (map blank segs)).
Proof.
  unfold nonblank_segments. induction segs as [|h t IH]; [reflexivity|].
  cbn [map filter]. destruct (negb (blank h)); cbn [List.length]; now rewrite IH.
Qed.

Lemma truthy_strip_filter (segs : list str) :
  filter (fun seg => truthy (strip seg)) segs = filter (fun seg => negb (blank seg)) segs.
Proof. apply filter_ext. intros seg. apply truthy_strip. Qed.

Lemma provisional_count_nonblank (text : str) :
  provisional_count text =
  Z.of_nat (nonblank_segments (Spec.split_at_terminators (squeeze text))).
Proof.
  unfold provisional_count, valid_segments, nonblank_segments.
  now rewrite length_map, truthy_strip_filter, split_terminators_spec, sub_dots_squeeze.
Qed.

Lemma spec_provisional_count_nonblank (text : str) :
  Spec.provisional_count text =
  Z.of_nat (nonblank_segments (Spec.split_at_terminators (squeeze text))).
Proof.
  unfold Spec.provisional_count, nonblank_segments.
  now rewrite truthy_strip_filter, normalize_squeeze.
Qed.

(** ** Sentences: whitespace around the text *)

Lemma squeeze_space (c : char) (s : str) :
  isspace c = true -> squeeze (c :: s) = c :: squeeze s.
Proof.
  intros H. cbn [squeeze]. now rewrite (space_not_dot c H).
Qed.

Lemma squeeze_pad_l (w s : str) :
  blank w = true -> squeeze (w ++ s) = w ++ squeeze s.
Proof.
  induction w as [|c r IH]; [reflexivity|].
  cbn [blank forallb]. intros H. apply andb_true_iff in H. destruct H as [Hc Hr].
  cbn [app]. rewrite squeeze_space by assumption. now rewrite IH.
Qed.

Lemma squeeze_blank (w : str) : blank w = true -> squeeze w = w.
Proof.
  intros H. pose proof (squeeze_pad_l w [] H) as E.
  cbn [squeeze] in E. now rewrite !app_nil_r in E.
Qed.

Lemma blank_no_dot (w : str) : blank w = true -> starts_with_dot w = false.
Proof.
  destruct w as [|c r]; [reflexivity|].
  cbn. intros H. apply andb_true_iff in H. now apply space_not_dot.
Qed.

Lemma squeeze_pad_r (s w : str) :
  blank w = true -> squeeze (s ++ w) = squeeze s ++ w.
Proof.
  intros H. induction s as [|c r IH]; [now apply squeeze_blank|].
  cbn [app squeeze]. rewrite IH.
  assert (E : starts_with_dot (r ++ w) = starts_with_dot r).
  { destruct r; [now apply blank_no_dot|reflexivity]. }
  rewrite E. destruct (is_dot c && starts_with_dot r); reflexivity.
Qed.

Lemma split_at_space (c : char) (s : str) :
  isspace c = true ->
  map blank (Spec.split_at_terminators (c :: s)) =
  map blank (Spec.split_at_terminators s).
Proof.
  intros H. cbn [Spec.split_at_terminators].
  rewrite (space_not_terminator c H).
  destruct (Spec.split_at_terminators s) as [|h t] eqn:E.
  - now apply split_at_nonempty in E.
  - cbn. unfold blank in H. now rewrite H.
Qed.

Lemma split_at_pad_l (w s : str) :
  blank w = true ->
  map blank (Spec.split_at_terminators (w ++ s)) =
  map blank (Spec.split_at_terminators s).
Proof.
  induction w as [|c r IH]; [reflexivity|].
  cbn [blank forallb]. intros H. apply andb_true_iff in H. destruct H as [Hc Hr].
  cbn [app]. rewrite split_at_space by assumption. now apply IH.
Qed.

Lemma split_at_pad_r (s w : str) :
  blank w = true ->
  map blank (Spec.split_at_terminators (s ++ w)) =
  map blank (Spec.split_at_terminators s).
Proof.
  intros H. induction s as [|c r IH].
  - pose proof (split_at_pad_l w [] H) as E. now rewrite app_nil_r in E.
  - cbn [app Spec.split_at_terminators].
    destruct (is_terminator c); [cbn [map]; now rewrite IH|].
    destruct (Spec.split_at_terminators (r ++ w)) as [|h' t'] eqn:E';
      [now apply split_at_nonempty in E'|].
    destruct (Spec.split_at_terminators r) as [|h t] eqn:E;
      [now apply split_at_nonempty in E|].
    cbn [map] in *. injection IH as Eh Et.
    now rewrite !blank_cons, Eh, Et.
Qed.

Lemma nonblank_segments_pad (w1 s w2 : str) :
  blank w1 = true -> blank w2 = true ->
  nonblank_segments (Spec.split_at_terminators (squeeze (w1 ++ s ++ w2))) =
  nonblank_segments (Spec.split_at_terminators (squeeze s)).
Proof.
  intros H1 H2. rewrite !nonblank_segments_map.
  rewrite squeeze_pad_l, squeeze_pad_r by assumption.
  now rewrite split_at_pad_l, split_at_pad_r.
Qed.

Lemma provisional_count_strip (text : str) :
  provisional_count (strip text) = Spec.provisional_count text.
Proof.
  rewrite provisional_count_nonblank, spec_provisional_count_nonblank.
  destruct (strip_decompose text) as [w1 [w2 [H1 [H2 E]]]].
  rewrite E at 2. now rewrite nonblank_segments_pad.
Qed.

(** ** Sentences: the end of the text *)

Lemma match_spaces_dollar_blank (s : str) : match_spaces_dollar s = blank s.
Proof.
  induction s as [|c r IH]; [reflexivity|].
  cbn [match_spaces_dollar blank forallb]. rewrite IH.
  destruct r as [|d t].
  - cbn. rewrite andb_true_r.
    destruct (N.eqb_spec c newline) as [->|_]; [reflexivity|].
    reflexivity.
  - reflexivity.
Qed.

Lemma search_blank (s : str) : blank s = true -> search_terminator_end s = false.
Proof.
  induction s as [|c r IH]; [reflexivity|].
  cbn [blank forallb search_terminator_end]. intros H.
  apply andb_true_iff in H. destruct H as [Hc Hr].
  rewrite (space_not_terminator c Hc), IH by assumption. reflexivity.
Qed.

Lemma ends_term_blank (s : str) : blank s = true -> ends_term s = false.
Proof.
  induction s as [|c r IH]; [reflexivity|].
  cbn [blank forallb ends_term]. intros H.
  apply andb_true_iff in H. destruct H as [Hc Hr].
  fold (blank r) in *. rewrite Hr. now apply space_not_terminator.
Qed.

Lemma search_ends_term (s : str) : search_terminator_end s = ends_term s.
Proof.
  induction s as [|c r IH]; [reflexivity|].
  cbn [search_terminator_end ends_term]. rewrite match_spaces_dollar_blank.
  destruct (blank r) eqn:Er.
  - rewrite search_blank by assumption. now rewrite andb_true_r, orb_false_r.
  - now rewrite andb_false_r.
Qed.

Lemma ends_term_pad_l (w s : str) :
  blank w = true -> ends_term (w ++ s) = ends_term s.
Proof.
  induction w as [|c r IH]; [reflexivity|].
  cbn [blank forallb]. intros H. apply andb_true_iff in H. destruct H as [Hc Hr].
  fold (blank r) in Hr. cbn [app ends_term]. rewrite blank_app, Hr. cbn [andb].
  destruct (blank s) eqn:Es.
  - rewrite ends_term_blank by assumption. now apply space_not_terminator.
  - now apply IH.
Qed.

Lemma ends_term_pad_r (s w : str) :
  blank w = true -> ends_term (s ++ w) = ends_term s.
Proof.
  intros H. induction s as [|c r IH]; [now apply ends_term_blank|].
  cbn [app ends_term]. now rewrite blank_app, H, andb_true_r, IH.
Qed.

Lemma ends_term_strip (s : str) : ends_term (strip s) = ends_term s.
Proof.
  destruct (strip_decompose s) as [w1 [w2 [H1 [H2 E]]]].
  rewrite E at 2. now rewrite ends_term_pad_l, ends_term_pad_r.
Qed.

Lemma ends_term_spec (s : str) : Spec.EndsWithTerminator s <-> ends_term s = true.
Proof.
  split.
  - intros [before [c [after [E [Hc Hw]]]]]. subst s.
    apply blank_Whitespace in Hw.
    induction before as [|d p IH].
    + cbn [app ends_term]. now rewrite Hw.
    + cbn [app ends_term]. rewrite blank_app. cbn [blank forallb].
      assert (Es : isspace c = false).
      { destruct (isspace c) eqn:Es; [|reflexivity].
        apply space_not_terminator in Es. congruence. }
      rewrite Es, andb_false_r. exact IH.
  - induction s as [|c r IH]; [discriminate|].
    cbn [ends_term]. destruct (blank r) eqn:Er.
    + intros Hc. exists [], c, r. repeat split; [assumption|].
      now apply blank_Whitespace.
    + intros H. destruct (IH H) as [before [c' [after [E [Hc Hw]]]]].
      exists (c :: before), c', after. subst r. repeat split; assumption.
Qed.

(** ** Words: tokens *)

Lemma tokens_space (c : char) (s : str) :
  isspace c = true -> Spec.tokens (c :: s) = Spec.tokens s.
Proof. intros H. cbn [Spec.tokens]. now rewrite H. Qed.

Lemma tokens_blank (w : str) : blank w = true -> Spec.tokens w = [].
Proof.
  induction w as [|c r IH]; [reflexivity|].
  rewrite blank_cons. intros H. apply andb_true_iff in H. destruct H as [Hc Hr].
  rewrite tokens_space by assumption. now apply IH.
Qed.

Lemma tokens_nonempty (c : char) (r : str) :
  isspace c = false -> Spec.tokens (c :: r) <> [].
Proof.
  intros H. cbn [Spec.tokens]. rewrite H.
  destruct r as [|d t]; [discriminate|].
  destruct (isspace d); [discriminate|].
  destruct (Spec.tokens (d :: t)); discriminate.
Qed.

Lemma split_from_tokens (s tok : str) :
  split_from tok s =
  match s with
  | [] => if truthy tok then [rev tok] else []
  | c :: _ =>
      if isspace c
      then (if truthy tok then rev tok :: Spec.tokens s else Spec.tokens s)
      else match Spec.tokens s with
           | t :: ts => (rev tok ++ t) :: ts
           | [] => []
           end
  end.
Proof.
  revert tok. induction s as [|c r IH]; intros tok; [reflexivity|].
  assert (E0 : split_from [] r = Spec.tokens r).
  { rewrite IH. destruct r as [|d t]; [reflexivity|].
    destruct (isspace d); [reflexivity|].
    destruct (Spec.tokens (d :: t)); reflexivity. }
  cbn [split_from]. destruct (isspace c) eqn:Ec.
  - rewrite E0, tokens_space by assumption. reflexivity.
  - rewrite IH. cbn [Spec.tokens]. rewrite Ec. cbn [rev truthy].
    destruct r as [|d t]; [reflexivity|].
    destruct (isspace d) eqn:Ed; [reflexivity|].
    destruct (Spec.tokens (d :: t)) as [|t0 ts] eqn:Et.
    + now apply tokens_nonempty in Et.
    + now rewrite <- app_assoc.
Qed.

Lemma split_tokens (s : str) : split s = Spec.tokens s.
Proof.
  unfold split. rewrite split_from_tokens.
  destruct s as [|c r]; [reflexivity|].
  destruct (isspace c); [reflexivity|].
  destruct (Spec.tokens (c :: r)); reflexivity.
Qed.

Lemma tokens_pad_l (w s : str) :
  blank w = true -> Spec.tokens (w ++ s) = Spec.tokens s.
Proof.
  induction w as [|c r IH]; [reflexivity|].
  rewrite blank_cons. intros H. apply andb_true_iff in H. destruct H as [Hc Hr].
  cbn [app]. rewrite tokens_space by assumption. now apply IH.
Qed.

Lemma tokens_pad_r (s w : str) :
  blank w = true -> Spec.tokens (s ++ w) = Spec.tokens s.
Proof.
  intros H. induction s as [|c r IH]; [now apply tokens_blank|].
  cbn [app Spec.tokens]. rewrite IH.
  destruct (isspace c); [reflexivity|].
  destruct r as [|d t]; [|reflexivity].
  cbn [app]. destruct w as [|d w']; [reflexivity|].
  rewrite blank_cons in H. apply andb_true_iff in H. destruct H as [Hd Hw].
  now rewrite Hd.
Qed.

Lemma tokens_strip (s : str) : Spec.tokens (strip s) = Spec.tokens s.
Proof.
  destruct (strip_decompose s) as [w1 [w2 [H1 [H2 E]]]].
  rewrite E at 2. now rewrite tokens_pad_l, tokens_pad_r.
Qed.

(** No token is empty, no token holds whitespace, and the characters of
    the tokens are characters of the text. *)
Lemma tokens_sound (s : str) :
  Forall (fun tok => truthy tok = true /\
                     forallb (fun c => negb (isspace c)) tok = true /\
                     incl tok s)
         (Spec.tokens s).
Proof.
  induction s as [|c r IH]; [constructor|].
  cbn [Spec.tokens]. destruct (isspace c) eqn:Ec.
  - eapply Forall_impl; [|exact IH]. cbv beta.
    intros tok [Ht [Hs Hi]]. repeat split; try assumption.
    now apply incl_tl.
  - assert (Hc : Forall (fun tok => truthy tok = true /\
                     forallb (fun c => negb (isspace c)) tok = true /\
                     incl tok (c :: r)) (Spec.tokens r)).
    { eapply Forall_impl; [|exact IH]. cbv beta.
      intros tok [Ht [Hs Hi]]. repeat split; try assumption.
      now apply incl_tl. }
    assert (H1 : truthy [c] = true /\
                 forallb (fun c => negb (isspace c)) [c] = true /\
                 incl [c] (c :: r)).
    { repeat split; [cbn; now rewrite Ec|].
      intros x [<-|[]]. now left. }
    destruct r as [|d t]; [now constructor|].
    destruct (isspace d); [now constructor|].
    destruct (Spec.tokens (d :: t)) as [|t0 ts]; [now constructor|].
    inversion Hc as [|? ? [Ht [Hs Hi]] Hts]; subst.
    constructor; [|exact Hts].
    repeat split; [cbn; now rewrite Ec, Hs|].
    intros x [<-|Hx]; [now left|now apply Hi].
Qed.

(** The Words count of the program, over the tokens of the text: a token
    is left out exactly when all its characters are of the class [\d]. *)
Lemma words_count_tokens (text : str) :
  primaryCount (compute text Words) =
  Z.of_nat (List.length
              (filter (fun tok => negb (forallb is_decimal tok)) (Spec.tokens text))).
Proof.
  rewrite compute_unfold. cbn [primaryCount]. rewrite primary_Words.
  unfold words_count, valid_words. rewrite split_tokens, tokens_strip.
  do 2 f_equal. apply filter_ext_in. intros tok Hin.
  pose proof (tokens_sound text) as S. rewrite Forall_forall in S.
  destruct (S tok Hin) as [Ht _]. unfold fullmatch_digits. now rewrite Ht.
Qed.

(** ** ASCII texts

    On a text of ASCII characters, [\d] is the class of the digits ['0']
    to ['9'], and the digit count and the Words rule are those of the
    specification. *)

Lemma ascii_decimal (c : char) : (c < 128)%N -> is_decimal c = Spec.ascii_digit c.
Proof.
  intros H. unfold is_decimal, decimal_ranges. cbn [existsb fst snd].
  fold (Spec.ascii_digit c).
  repeat match goal with
  | |- context [in_range ?lo ?hi c] =>
      replace (in_range lo hi c) with false
        by (unfold in_range; symmetry; apply andb_false_intro1;
            apply N.leb_gt; lia)
  end.
  cbn [orb]. apply orb_false_r.
Qed.

Lemma ascii_digitCount (text mode : str) :
  Forall (fun c => (c < 128)%N) text ->
  digitCount (compute text mode) = Spec.count Spec.ascii_digit text.
Proof.
  intros H. rewrite digitCount_count.
  induction H as [|c r Hc Hr IH]; [reflexivity|].
  cbn [Spec.count]. now rewrite IH, ascii_decimal.
Qed.

Lemma ascii_words_count (text : str) :
  Forall (fun c => (c < 128)%N) text ->
  primaryCount (compute text Words) =
  Z.of_nat (List.length
              (filter (fun tok => negb (forallb Spec.ascii_digit tok))
                      (Spec.tokens text))).
Proof.
  intros H. rewrite words_count_tokens. do 2 f_equal.
  apply filter_ext_in. intros tok Hin. f_equal.
  pose proof (tokens_sound text) as S. rewrite Forall_forall in S.
  destruct (S tok Hin) as [_ [_ Hi]]. rewrite Forall_forall in H.
  assert (Ht : forall c, In c tok -> (c < 128)%N) by (intros c Hc; apply H, Hi, Hc).
  clear - Ht. induction tok as [|c r IH]; [reflexivity|].
  cbn [forallb]. rewrite ascii_decimal by (apply Ht; now left).
  rewrite IH; [reflexivity|]. intros x Hx. apply Ht. now right.
Qed.

(** ** The reverse and clear actions *)

Lemma revert_string_input (app : App) :
  input_text (revert_string app) =
  if truthy (strip (input_text app)) then reversed (strip (input_text app))
  else input_text app.
Proof.
  unfold revert_string. rewrite widget_text.
  destruct (truthy (strip (input_text app))); reflexivity.
Qed.

Lemma strip_reversed_strip (text : str) :
  strip (reversed (strip text)) = reversed (strip text).
Proof. unfold reversed. now rewrite strip_rev, strip_idem. Qed.

Lemma compute_strip (text mode : str) : compute (strip text) mode = compute text mode.
Proof. now rewrite !compute_unfold, strip_idem. Qed.

Lemma compute_reversed_strip (text mode : str) :
  compute (reversed (strip text)) mode = compute (reversed text) mode.
Proof.
  rewrite !compute_unfold. unfold reversed.
  now rewrite !strip_rev, strip_idem.
Qed.

Lemma primary_count_nonneg (text mode : str) : 0 <= primary_count text mode.
Proof.
  unfold primary_count.
  destruct (negb (truthy text)); [lia|].
  destruct (str_eqb mode (lit "Letters")); [apply Nat2Z.is_nonneg|].
  destruct (str_eqb mode (lit "Words")); [apply Nat2Z.is_nonneg|].
  destruct (str_eqb mode (lit "Sentences")); [apply Z.le_max_l|lia].
Qed.

(** ** The claims *)

(** C1. For every input text, the provisional count of the Sentences
    branch (computed on the stripped widget text) is the number obtained by
    the three steps of the specification applied to the text: replace
    every maximal run of two or more ['.'] by one ['.'], split at every
    ['.'], ['?'] and ['!'], and count the segments that are not empty after
    trimming.  The Sentences result is this number after the trailing
    correction and the floor at zero. *)
Theorem C1_provisional_count_steps (text : str) :
  provisional_count (strip (get_all text)) = Spec.provisional_count text /\
  primaryCount (compute text Sentences) =
    (let count := Spec.provisional_count text in
     let ends := search_terminator_end (strip (get_all text)) in
     Z.max 0 (if 0 <? count then (if negb ends then count - 1 else count)
              else count)).
Proof.
  rewrite widget_text, provisional_count_strip. split; [reflexivity|].
  rewrite compute_unfold. cbn [primaryCount]. rewrite primary_Sentences.
  unfold sentences_count. now rewrite provisional_count_strip.
Qed.

(** C2. For every input text, the Sentences count equals the provisional
    count minus one exactly when the original text does not end with a
    terminator optionally followed only by whitespace and the provisional
    count is positive; otherwise it equals the provisional count; and it
    is never negative. *)
Theorem C2_trailing_correction (text : str) :
  let provisional := provisional_count (strip (get_all text)) in
  let final := primaryCount (compute text Sentences) in
  (final = provisional - 1 <->
   ~ Spec.EndsWithTerminator text /\ 0 < provisional) /\
  (final = provisional - 1 \/ final = provisional) /\
  0 <= final.
Proof.
  cbv zeta. rewrite widget_text, compute_unfold. cbn [primaryCount].
  rewrite primary_Sentences. unfold sentences_count.
  rewrite search_ends_term, ends_term_strip, ends_term_spec.
  pose proof (Nat2Z.is_nonneg (List.length (valid_segments (strip text)))) as Hp.
  fold (provisional_count (strip text)) in Hp.
  destruct (Z.ltb_spec 0 (provisional_count (strip text)));
    destruct (ends_term text); cbn [negb]; split; try split; try lia.
  all: split; [intros; try lia|intros [Hn Hpos]; try lia].
  all: try (exfalso; apply Hn; reflexivity).
Qed.

(** C3. Words mode at the text made of the single character U+0663
    (ARABIC-INDIC DIGIT THREE): [split] yields that one token, the token
    holds no ASCII digit, and yet [\d+] matches it, so it is excluded and
    the count is 0, where the claim counts it as a word.  The two examples
    of the claim hold. *)
Theorem C3_words_excludes_unicode_digit_token :
  split (strip (get_all [1635%N])) = [[1635%N]] /\
  forallb Spec.ascii_digit [1635%N] = false /\
  fullmatch_digits [1635%N] = true /\
  primaryCount (compute [1635%N] Words) = 0 /\
  primaryCount (compute (lit "123 456") Words) = 0 /\
  primaryCount (compute (lit "3.14 is pi") Words) = 3.
Proof. repeat split; vm_compute; reflexivity. Qed.

(** C4. The digit count at the text made of the single character U+0663
    (ARABIC-INDIC DIGIT THREE) is 1 in every mode, although the text holds
    no ASCII digit: [\d] is the Unicode class of decimal digits. *)
Theorem C4_digitCount_counts_unicode_digit (mode : str) :
  digitCount (compute [1635%N] mode) = 1 /\
  Spec.count Spec.ascii_digit [1635%N] = 0.
Proof.
  split; [|reflexivity]. rewrite digitCount_count. reflexivity.
Qed.

(** C5. For every input text, the Letters count is the number of
    characters in ['a']-['z'] or ['A']-['Z'] anywhere in the text; the
    class holds ASCII characters only, so letters beyond ASCII are not
    counted (here e-acute, beta and zhe); and ["abc123XYZ"] has 6. *)
Theorem C5_letters_count (text : str) :
  primaryCount (compute text Letters) = Spec.count Spec.ascii_letter text /\
  (forall c : char, Spec.ascii_letter c = Spec.ascii_letter c && (c <? 128)%N) /\
  primaryCount (compute [233%N; 946%N; 1078%N] Letters) = 0 /\
  primaryCount (compute (lit "abc123XYZ") Letters) = 6.
Proof.
  split; [apply letters_count_count|].
  split; [|split; vm_compute; reflexivity].
  intros c. unfold Spec.ascii_letter, in_range.
  change (N_of_ascii "a") with 97%N. change (N_of_ascii "z") with 122%N.
  change (N_of_ascii "A") with 65%N. change (N_of_ascii "Z") with 90%N.
  destruct (N.leb_spec 97 c), (N.leb_spec c 122), (N.leb_spec 65 c),
    (N.leb_spec c 90), (N.ltb_spec c 128); cbn; try reflexivity; lia.
Qed.

(** C6, as the claim states it, fails: with the mode ["Paragraphs"], which
    is none of the three, the call returns the counts 0 and 0 and raises
    nothing. *)
Lemma C6_unrecognized_mode_not_signalled :
  ~ (forall text mode : str,
        recognized mode = false -> compute_outcome text mode = Raised InvalidMode).
Proof.
  intros H. specialize (H (lit "abc") (lit "Paragraphs") eq_refl). discriminate H.
Qed.

(** C6, amended.  [compute] is total over all texts and all mode values
    and never signals an error: it returns the digit count of the text,
    and as primary count the count of the mode when the mode is one of
    the three and 0, the initial value of [count], for any other mode. *)
Theorem C6_compute_total_unrecognized_zero (text mode : str) :
  compute_outcome text mode =
  Returned {| primaryCount := if recognized mode
                              then primary_count (strip (get_all text)) mode
                              else 0;
              digitCount := number_count (strip (get_all text)) |}.
Proof.
  unfold compute_outcome. f_equal. rewrite widget_text, compute_unfold. f_equal.
  destruct (recognized mode) eqn:E; [reflexivity|].
  now apply primary_unrecognized.
Qed.

(** C7. For every mode value and every input, the primary count is not
    negative; the empty text yields the counts 0 and 0 in every mode; and
    after the clear action, whatever the prior text and the mode, the
    widget is empty and both displayed counts are 0. *)
Theorem C7_counts_nonnegative_and_empty (text mode : str) (app : App) :
  0 <= primaryCount (compute text mode) /\
  compute [] mode = {| primaryCount := 0; digitCount := 0 |} /\
  input_text (clean_string app) = [] /\
  result_text (clean_string app) = (count_mode app, 0) /\
  number_count_text (clean_string app) = 0.
Proof.
  split; [rewrite compute_unfold; apply primary_count_nonneg|].
  repeat split.
Qed.

(** C8, as the claim states it, fails: on the text [" a"] the reverse
    action applied twice leaves ["a"] in the widget, since the action
    strips the text before it reverses it. *)
Lemma C8_revert_twice_strips :
  ~ (forall app : App, input_text (revert_string (revert_string app)) = input_text app).
Proof.
  intros H.
  specialize (H {| input_text := lit " a"; count_mode := Letters;
                   result_text := (Letters, 0); number_count_text := 0 |}).
  vm_compute in H. discriminate H.
Qed.

(** C8, amended.  Character reversal is self-inverse, and the reverse
    action applied twice leaves in the widget the text stripped of its
    surrounding whitespace; a text of whitespace only is left as it is.  So
    a text without leading or trailing whitespace comes back unchanged. *)
Theorem C8_revert_twice (app : App) :
  reversed (reversed (input_text app)) = input_text app /\
  input_text (revert_string (revert_string app)) =
    (if truthy (strip (input_text app)) then strip (input_text app)
     else input_text app).
Proof.
  split; [apply rev_involutive|].
  rewrite revert_string_input.
  rewrite (revert_string_input app).
  destruct (truthy (strip (input_text app))) eqn:E.
  - rewrite strip_reversed_strip. unfold reversed at 1 3.
    rewrite truthy_rev, E. apply rev_involutive.
  - now rewrite E.
Qed.

(** C9. For every text, every mode and all strings of whitespace [w1]
    and [w2], the counts of [w1 + text + w2] are the counts of [text]. *)
Theorem C9_whitespace_padding (w1 text w2 mode : str) :
  Spec.Whitespace w1 -> Spec.Whitespace w2 ->
  compute (w1 ++ text ++ w2) mode = compute text mode.
Proof.
  intros H1 H2. apply blank_Whitespace in H1, H2.
  now rewrite !compute_unfold, strip_pad.
Qed.

Lemma C9_whitespace_padding_witness :
  Spec.Whitespace [32%N; 9%N] /\ Spec.Whitespace [10%N; 160%N] /\
  compute ([32%N; 9%N] ++ lit "Hi there. 42" ++ [10%N; 160%N]) Sentences =
  compute (lit "Hi there. 42") Sentences.
Proof.
  assert (Ha : Spec.Whitespace [32%N; 9%N]) by (repeat constructor).
  assert (Hb : Spec.Whitespace [10%N; 160%N]) by (repeat constructor).
  split; [exact Ha|]. split; [exact Hb|].
  exact (C9_whitespace_padding [32%N; 9%N] (lit "Hi there. 42") [10%N; 160%N]
           Sentences Ha Hb).
Defined.

(** C10. For every text, reversing the characters changes neither the
    Letters count nor, in any mode, the digit count; the same holds of the
    text the reverse action leaves in the widget. *)
Theorem C10_reversal_invariance (text mode : str) (app : App) :
  primaryCount (compute (reversed text) Letters) =
    primaryCount (compute text Letters) /\
  digitCount (compute (reversed text) mode) = digitCount (compute text mode) /\
  primaryCount (compute (input_text (revert_string app)) Letters) =
    primaryCount (compute (input_text app) Letters) /\
  digitCount (compute (input_text (revert_string app)) mode) =
    digitCount (compute (input_text app) mode).
Proof.
  assert (L : forall t, primaryCount (compute (reversed t) Letters) =
                        primaryCount (compute t Letters)).
  { intros t. rewrite !letters_count_count. apply count_rev. }
  assert (D : forall t, digitCount (compute (reversed t) mode) =
                        digitCount (compute t mode)).
  { intros t. rewrite !digitCount_count. apply count_rev. }
  split; [apply L|]. split; [apply D|].
  rewrite revert_string_input.
  destruct (truthy (strip (input_text app))); [|split; reflexivity].
  rewrite !compute_reversed_strip. split; [apply L|apply D].
Qed.

(** * Further properties of the program *)

(** ** Sentences: the segments a terminator closes *)

Lemma split_at_app_terminator (a : str) (c : char) (b : str) :
  is_terminator c = true ->
  Spec.split_at_terminators (a ++ c :: b) =
  Spec.split_at_terminators a ++ Spec.split_at_terminators b.
Proof.
  intros Hc. induction a as [|d a' IH].
  - cbn [app Spec.split_at_terminators]. now rewrite Hc.
  - cbn [app Spec.split_at_terminators]. rewrite IH.
    destruct (is_terminator d); [reflexivity|].
    destruct (Spec.split_at_terminators a') as [|h t] eqn:E; [|reflexivity].
    now apply split_at_nonempty in E.
Qed.

Lemma split_at_terminator_free (b : str) :
  terminator_free b = true -> Spec.split_at_terminators b = [b].
Proof.
  induction b as [|c r IH]; [reflexivity|].
  cbn [terminator_free forallb]. intros H. apply andb_true_iff in H.
  destruct H as [Hc Hr]. apply negb_true_iff in Hc.
  cbn [Spec.split_at_terminators]. rewrite Hc. fold (terminator_free r) in Hr.
  now rewrite IH.
Qed.

Lemma blank_terminator_free (w : str) : blank w = true -> terminator_free w = true.
Proof.
  induction w as [|c r IH]; [reflexivity|].
  rewrite blank_cons. intros H. apply andb_true_iff in H. destruct H as [Hc Hr].
  cbn [terminator_free forallb]. rewrite (space_not_terminator c Hc).
  now apply IH.
Qed.

Lemma ends_term_terminator_free (s : str) :
  terminator_free s = true -> ends_term s = false.
Proof.
  induction s as [|c r IH]; [reflexivity|].
  cbn [terminator_free forallb]. intros H. apply andb_true_iff in H.
  destruct H as [Hc Hr]. apply negb_true_iff in Hc.
  cbn [ends_term]. destruct (blank r); [exact Hc|now apply IH].
Qed.

Lemma ends_term_app_nonblank (x y : str) :
  blank y = false -> ends_term (x ++ y) = ends_term y.
Proof.
  intros H. induction x as [|d x' IH]; [reflexivity|].
  cbn [app ends_term]. now rewrite blank_app, H, andb_false_r.
Qed.

Lemma terminator_not_space (c : char) : is_terminator c = true -> isspace c = false.
Proof.
  intros H. destruct (isspace c) eqn:E; [|reflexivity].
  apply space_not_terminator in E. congruence.
Qed.

(** A text has no terminator, or it has a last one. *)
Lemma last_terminator (s : str) :
  terminator_free s = true \/
  exists p c b, s = p ++ c :: b /\ is_terminator c = true /\ terminator_free b = true.
Proof.
  induction s as [|d r [Hr|[p [c [b [E [Hc Hb]]]]]]].
  - now left.
  - destruct (is_terminator d) eqn:Ed.
    + right. exists [], d, r. now repeat split.
    + left. cbn [terminator_free forallb]. now rewrite Ed.
  - right. exists (d :: p), c, b. subst r. now repeat split.
Qed.

(** The segments are some closed segments followed by the rest of the
    text after its last terminator; that rest is blank exactly when the
    text is blank or ends with a terminator and whitespace. *)
Lemma split_at_last (s : str) :
  exists closed rest,
    Spec.split_at_terminators s = closed ++ [rest] /\
    blank rest = ends_term s || blank s /\
    Spec.count is_terminator s = Z.of_nat (List.length closed).
Proof.
  destruct (last_terminator s) as [Hs|[p [c [b [E [Hc Hb]]]]]].
  - exists [], s. rewrite split_at_terminator_free by assumption.
    rewrite ends_term_terminator_free by assumption. repeat split.
    clear - Hs. induction s as [|c r IH]; [reflexivity|].
    cbn [terminator_free forallb] in Hs. apply andb_true_iff in Hs.
    destruct Hs as [Hc Hr]. apply negb_true_iff in Hc.
    cbn [Spec.count]. rewrite Hc. now apply IH.
  - subst s. exists (Spec.split_at_terminators p), b.
    rewrite split_at_app_terminator by assumption.
    rewrite (split_at_terminator_free b) by assumption.
    split; [reflexivity|]. split.
    + rewrite blank_app, blank_cons, (terminator_not_space c Hc).
      rewrite andb_false_r, orb_false_r.
      rewrite ends_term_app_nonblank
        by now rewrite blank_cons, (terminator_not_space c Hc).
      cbn [ends_term]. rewrite Hc.
      destruct (blank b); [reflexivity|].
      symmetry. now apply ends_term_terminator_free.
    + rewrite count_app. cbn [Spec.count]. rewrite Hc.
      assert (Eb : Spec.count is_terminator b = 0).
      { clear - Hb. induction b as [|d r IH]; [reflexivity|].
        cbn [terminator_free forallb] in Hb. apply andb_true_iff in Hb.
        destruct Hb as [Hd Hr]. apply negb_true_iff in Hd.
        cbn [Spec.count]. rewrite Hd. now apply IH. }
      rewrite Eb. clear. induction p as [|d r IH]; [reflexivity|].
      cbn [Spec.count Spec.split_at_terminators].
      destruct (is_terminator d).
      * cbn [List.length]. lia.
      * destruct (Spec.split_at_terminators r) as [|h t] eqn:E;
          [now apply split_at_nonempty in E|].
        cbn [List.length] in *. lia.
Qed.

(** ** Sentences: what normalization keeps *)

Lemma starts_with_dot_nonblank (r : str) : starts_with_dot r = true -> blank r = false.
Proof.
  destruct r as [|d t]; [discriminate|]. cbn [starts_with_dot]. intros H.
  rewrite blank_cons. destruct (isspace d) eqn:E; [|reflexivity].
  apply space_not_dot in E. congruence.
Qed.

Lemma squeeze_starts_with_dot (s : str) :
  starts_with_dot (squeeze s) = starts_with_dot s.
Proof.
  induction s as [|c r IH]; [reflexivity|].
  cbn [squeeze]. destruct (is_dot c) eqn:Ec; cbn [andb].
  - destruct (starts_with_dot r) eqn:Er; cbn [starts_with_dot]; congruence.
  - reflexivity.
Qed.

Lemma squeeze_blank_eq (s : str) : blank (squeeze s) = blank s.
Proof.
  induction s as [|c r IH]; [reflexivity|].
  cbn [squeeze]. destruct (is_dot c && starts_with_dot r) eqn:E.
  - apply andb_true_iff in E. destruct E as [Ec Er].
    rewrite IH, blank_cons, (starts_with_dot_nonblank r Er). now rewrite andb_false_r.
  - now rewrite !blank_cons, IH.
Qed.

Lemma squeeze_ends_term (s : str) : ends_term (squeeze s) = ends_term s.
Proof.
  induction s as [|c r IH]; [reflexivity|].
  cbn [squeeze]. destruct (is_dot c && starts_with_dot r) eqn:E.
  - apply andb_true_iff in E. destruct E as [Ec Er].
    cbn [ends_term]. now rewrite (starts_with_dot_nonblank r Er).
  - cbn [ends_term]. now rewrite squeeze_blank_eq, IH.
Qed.

Lemma squeeze_no_double_dot (s : str) : has_double_dot (squeeze s) = false.
Proof.
  induction s as [|c r IH]; [reflexivity|].
  cbn [squeeze]. destruct (is_dot c && starts_with_dot r) eqn:E; [exact IH|].
  cbn [has_double_dot]. now rewrite squeeze_starts_with_dot, E, IH.
Qed.

Lemma squeeze_fixed (s : str) : has_double_dot s = false -> squeeze s = s.
Proof.
  induction s as [|c r IH]; [reflexivity|].
  cbn [has_double_dot squeeze]. intros H. apply orb_false_iff in H.
  destruct H as [H1 H2]. rewrite H1. now rewrite IH.
Qed.

Lemma squeeze_idem (s : str) : squeeze (squeeze s) = squeeze s.
Proof. apply squeeze_fixed, squeeze_no_double_dot. Qed.

Lemma squeeze_filter (cls : char -> bool) (s : str) :
  (forall c, is_dot c = true -> cls c = false) ->
  filter cls (squeeze s) = filter cls s.
Proof.
  intros H. induction s as [|c r IH]; [reflexivity|].
  cbn [squeeze]. destruct (is_dot c && starts_with_dot r) eqn:E.
  - apply andb_true_iff in E. destruct E as [Ec Er].
    cbn [filter]. now rewrite (H c Ec).
  - cbn [filter]. now rewrite IH.
Qed.

Lemma squeeze_count (cls : char -> bool) (s : str) :
  (forall c, is_dot c = true -> cls c = false) ->
  Spec.count cls (squeeze s) = Spec.count cls s.
Proof.
  intros H. induction s as [|c r IH]; [reflexivity|].
  cbn [squeeze]. destruct (is_dot c && starts_with_dot r) eqn:E.
  - apply andb_true_iff in E. destruct E as [Ec Er].
    cbn [Spec.count]. rewrite (H c Ec). now rewrite IH.
  - cbn [Spec.count]. now rewrite IH.
Qed.

Lemma squeeze_count_le (cls : char -> bool) (s : str) :
  Spec.count cls (squeeze s) <= Spec.count cls s.
Proof.
  induction s as [|c r IH]; [reflexivity|].
  cbn [squeeze]. destruct (is_dot c && starts_with_dot r);
    cbn [Spec.count]; destruct (cls c); lia.
Qed.

Lemma squeeze_length_le (s : str) : (List.length (squeeze s) <= List.length s)%nat.
Proof.
  induction s as [|c r IH]; [reflexivity|].
  cbn [squeeze]. destruct (is_dot c && starts_with_dot r); cbn [List.length]; lia.
Qed.

Lemma dot_not_decimal (c : char) : is_dot c = true -> is_decimal c = false.
Proof. intros H. apply is_dot_eq in H. now subst. Qed.

Lemma dot_not_letter (c : char) : is_dot c = true -> is_ascii_letter c = false.
Proof. intros H. apply is_dot_eq in H. now subst. Qed.

(** ** Sentences: the count *)

Lemma nonblank_segments_app (a b : list str) :
  nonblank_segments (a ++ b) = (nonblank_segments a + nonblank_segments b)%nat.
Proof. unfold nonblank_segments. now rewrite filter_app, length_app. Qed.

Lemma nonblank_segments_le (a : list str) : (nonblank_segments a <= List.length a)%nat.
Proof. unfold nonblank_segments. apply filter_length_le. Qed.

(** The Sentences branch on any text, in terms of the segments other than
    the last. *)
Lemma sentences_count_closed (text : str) :
  sentences_count text =
  Z.of_nat (nonblank_segments
              (removelast (Spec.split_at_terminators (squeeze text)))).
Proof.
  unfold sentences_count. rewrite provisional_count_nonblank, search_ends_term.
  destruct (split_at_last (squeeze text)) as [closed [rest [E [Hb _]]]].
  rewrite E, removelast_last, nonblank_segments_app.
  rewrite squeeze_ends_term, squeeze_blank_eq in Hb.
  assert (Er : nonblank_segments [rest] = if blank rest then 0%nat else 1%nat).
  { unfold nonblank_segments. cbn [filter]. now destruct (blank rest). }
  rewrite Er, Hb. clear Er.
  destruct (ends_term text) eqn:Ee; cbn [orb negb].
  - rewrite Nat.add_0_r.
    destruct (0 <? Z.of_nat (nonblank_segments closed)); lia.
  - destruct (blank text) eqn:Eb.
    + assert (Ec : closed = []).
      { rewrite squeeze_blank in E by assumption.
        rewrite split_at_terminator_free in E by now apply blank_terminator_free.
        destruct closed as [|x [|y l]]; [reflexivity|discriminate..]. }
      subst closed. reflexivity.
    + destruct (Z.ltb_spec 0 (Z.of_nat (nonblank_segments closed + 1))); lia.
Qed.

Lemma provisional_count_spec (text : str) :
  provisional_count text = Spec.provisional_count text.
Proof. now rewrite provisional_count_nonblank, spec_provisional_count_nonblank. Qed.

Lemma sentences_count_strip (text : str) :
  sentences_count (strip text) = sentences_count text.
Proof.
  unfold sentences_count.
  rewrite provisional_count_strip, <- provisional_count_spec.
  now rewrite !search_ends_term, ends_term_strip.
Qed.

Lemma sentences_compute (text : str) :
  primaryCount (compute text Sentences) = sentences_count text.
Proof.
  rewrite compute_unfold. cbn [primaryCount].
  now rewrite primary_Sentences, sentences_count_strip.
Qed.

Lemma closed_segments_length (s : str) :
  Z.of_nat (List.length (removelast (Spec.split_at_terminators s))) =
  Spec.count is_terminator s.
Proof.
  destruct (split_at_last s) as [closed [rest [E [_ Hc]]]].
  now rewrite E, removelast_last.
Qed.

Lemma code_segments (text : str) :
  List.length (filter (fun s => truthy (strip s))
                 (removelast (split_terminators (sub_dots text)))) =
  nonblank_segments (removelast (Spec.split_at_terminators (squeeze text))).
Proof.
  unfold nonblank_segments.
  now rewrite truthy_strip_filter, split_terminators_spec, sub_dots_squeeze.
Qed.

(** X1. The Sentences count is the number of segments of the normalized
    text, other than the last one, that are not empty once stripped: the
    segments that a terminator closes.  This holds of the stripped text
    the program works on and of the text as typed. *)
Theorem X1_sentences_closed_segments (text : str) :
  primaryCount (compute text Sentences) =
    Z.of_nat (List.length
                (filter (fun s => truthy (strip s))
                   (removelast
                      (split_terminators (sub_dots (strip (get_all text))))))) /\
  primaryCount (compute text Sentences) =
    Z.of_nat (List.length
                (filter (fun s => truthy (strip s))
                   (removelast (split_terminators (sub_dots text))))).
Proof.
  rewrite !code_segments, widget_text, <- !sentences_count_closed.
  rewrite sentences_count_strip. split; apply sentences_compute.
Qed.

(** X2. The Sentences count never exceeds the number of terminator
    characters of the text; a text without ['.'], ['?'] and ['!'] has no
    sentence. *)
Theorem X2_sentences_at_most_terminators (text : str) :
  0 <= primaryCount (compute text Sentences) <= Spec.count is_terminator text.
Proof.
  rewrite sentences_compute, sentences_count_closed. split; [lia|].
  pose proof (nonblank_segments_le
                (removelast (Spec.split_at_terminators (squeeze text)))) as H.
  apply Nat2Z.inj_le in H. rewrite closed_segments_length in H.
  pose proof (squeeze_count_le is_terminator text). lia.
Qed.

(** X3. The normalized text [re.sub(r'\.{2,}', '.', s)] holds no two dots
    in a row; normalizing changes a text exactly when it has two dots in
    a row, so normalizing twice is normalizing once; the characters other
    than dots are kept, in order; and the text does not get longer. *)
Theorem X3_sub_dots_normal_form (s : str) :
  has_double_dot (sub_dots s) = false /\
  (sub_dots s = s <-> has_double_dot s = false) /\
  sub_dots (sub_dots s) = sub_dots s /\
  filter (fun c => negb (is_dot c)) (sub_dots s) =
    filter (fun c => negb (is_dot c)) s /\
  (List.length (sub_dots s) <= List.length s)%nat.
Proof.
  rewrite !sub_dots_squeeze. split; [apply squeeze_no_double_dot|].
  split; [|split; [apply squeeze_idem|split; [|apply squeeze_length_le]]].
  - split; [|apply squeeze_fixed].
    intros E. rewrite <- E. apply squeeze_no_double_dot.
  - apply squeeze_filter. intros c Hc. now rewrite Hc.
Qed.

(** ** Words: how the tokens compose *)

Lemma tokens_cons (c : char) (x : str) :
  isspace c = false ->
  Spec.tokens (c :: x) =
  match x with
  | [] => [[c]]
  | d :: _ =>
      if isspace d then [c] :: Spec.tokens x
      else match Spec.tokens x with
           | tok :: toks => (c :: tok) :: toks
           | [] => [[c]]
           end
  end.
Proof. intros H. cbn [Spec.tokens]. now rewrite H. Qed.

Lemma tokens_head (d : char) (r : str) :
  isspace d = false ->
  exists tok toks, Spec.tokens (d :: r) = (d :: tok) :: toks.
Proof.
  intros H. rewrite tokens_cons by assumption.
  destruct r as [|e t]; [now eauto|].
  destruct (isspace e); [now eauto|].
  destruct (Spec.tokens (e :: t)); eauto.
Qed.

Lemma tokens_app_space (a w b : str) :
  blank w = true -> truthy w = true ->
  Spec.tokens (a ++ w ++ b) = Spec.tokens a ++ Spec.tokens b.
Proof.
  intros Hw Hn. induction a as [|c r IH].
  - cbn [app]. now apply tokens_pad_l.
  - cbn [app]. destruct (isspace c) eqn:Ec.
    + now rewrite !tokens_space.
    + rewrite !tokens_cons by assumption. rewrite IH.
      destruct r as [|d t].
      * destruct w as [|e w']; [discriminate|].
        rewrite blank_cons in Hw. apply andb_true_iff in Hw.
        destruct Hw as [He _]. cbn [app]. now rewrite He.
      * cbn [app]. destruct (isspace d) eqn:Ed; [reflexivity|].
        destruct (tokens_head d t Ed) as [tok [toks E]]. now rewrite E.
Qed.

Lemma tokens_length_le (s : str) : (List.length (Spec.tokens s) <= List.length s)%nat.
Proof.
  induction s as [|c r IH]; [reflexivity|].
  cbn [Spec.tokens]. destruct (isspace c); [cbn [List.length]; lia|].
  destruct r as [|d t]; [reflexivity|].
  destruct (isspace d); [cbn [List.length] in *; lia|].
  destruct (Spec.tokens (d :: t)); cbn [List.length] in *; lia.
Qed.

(** ** Words: reversal *)

Lemma ends_space_cons (d : char) (r : str) :
  ends_space (d :: r) = match r with [] => isspace d | _ :: _ => ends_space r end.
Proof.
  unfold ends_space. cbn [rev]. destruct r as [|e t]; [reflexivity|].
  destruct (rev (e :: t)) as [|x l] eqn:E; [|reflexivity].
  apply (f_equal (@List.length char)) in E. rewrite length_rev in E. discriminate.
Qed.

Lemma ends_space_rev (r : str) :
  ends_space (rev r) = match r with [] => true | d :: _ => isspace d end.
Proof. unfold ends_space. now rewrite rev_involutive. Qed.

Lemma tokens_nil_blank (s : str) : Spec.tokens s = [] -> blank s = true.
Proof.
  induction s as [|c r IH]; [reflexivity|].
  destruct (isspace c) eqn:Ec.
  - rewrite tokens_space, blank_cons, Ec by assumption. exact IH.
  - intros H. now apply tokens_nonempty in H.
Qed.

Lemma blank_ends_space (s : str) : blank s = true -> ends_space s = true.
Proof.
  induction s as [|c r IH]; [reflexivity|].
  rewrite blank_cons, ends_space_cons. intros H. apply andb_true_iff in H.
  destruct H as [Hc Hr]. destruct r; [exact Hc|now apply IH].
Qed.

(** A character that is not whitespace, put at the end of a text, starts
    a token of its own after whitespace and extends the last token
    otherwise. *)
Lemma tokens_snoc (x : str) (c : char) :
  isspace c = false ->
  Spec.tokens (x ++ [c]) =
  if ends_space x then Spec.tokens x ++ [[c]]
  else removelast (Spec.tokens x) ++ [last (Spec.tokens x) [] ++ [c]].
Proof.
  intros Hc. induction x as [|d r IH].
  - cbn. now rewrite Hc.
  - cbn [app]. rewrite ends_space_cons. destruct (isspace d) eqn:Ed.
    + rewrite !tokens_space by assumption. rewrite IH.
      destruct r; [reflexivity|reflexivity].
    + rewrite !tokens_cons by assumption. rewrite IH. clear IH.
      destruct r as [|e t].
      * cbn [app]. rewrite Hc. reflexivity.
      * cbn [app]. destruct (isspace e) eqn:Ee.
        -- destruct (ends_space (e :: t)) eqn:Es; [reflexivity|].
           destruct (Spec.tokens (e :: t)) as [|t0 ts] eqn:Et.
           ++ apply tokens_nil_blank, blank_ends_space in Et. congruence.
           ++ reflexivity.
        -- destruct (tokens_head e t Ee) as [tok [toks E]]. rewrite E.
           destruct (ends_space (e :: t)); [reflexivity|].
           destruct toks; reflexivity.
Qed.

Lemma tokens_rev (s : str) :
  Spec.tokens (rev s) = rev (map (@rev char) (Spec.tokens s)).
Proof.
  induction s as [|c r IH]; [reflexivity|].
  cbn [rev]. destruct (isspace c) eqn:Ec.
  - rewrite tokens_pad_r by (cbn; now rewrite Ec).
    now rewrite tokens_space.
  - rewrite tokens_snoc, ends_space_rev, IH by assumption.
    rewrite tokens_cons by assumption.
    destruct r as [|d t]; [reflexivity|].
    destruct (isspace d) eqn:Ed; [reflexivity|].
    destruct (tokens_head d t Ed) as [tok [toks E]]. rewrite E.
    cbn [map rev]. now rewrite removelast_last, last_last.
Qed.

Lemma counted_rev (tok : str) : counted (rev tok) = counted tok.
Proof.
  unfold counted. f_equal. induction tok as [|c r IH]; [reflexivity|].
  cbn [rev forallb]. rewrite forallb_app, IH. cbn [forallb].
  rewrite andb_true_r. apply andb_comm.
Qed.

Lemma counted_tokens_rev (s : str) :
  List.length (filter counted (Spec.tokens (rev s))) =
  List.length (filter counted (Spec.tokens s)).
Proof.
  rewrite tokens_rev, filter_rev, length_rev.
  induction (Spec.tokens s) as [|tok toks IH]; [reflexivity|].
  cbn [map filter]. rewrite counted_rev.
  destruct (counted tok); cbn [List.length]; now rewrite IH.
Qed.

Lemma words_compute (text : str) :
  primaryCount (compute text Words) =
  Z.of_nat (List.length (filter counted (Spec.tokens text))).
Proof. apply words_count_tokens. Qed.

(** ** Words: normalization *)

Lemma squeeze_cons_shape (d : char) (r : str) :
  exists e x, squeeze (d :: r) = e :: x /\ isspace e = isspace d.
Proof.
  cbn [squeeze]. destruct (is_dot d && starts_with_dot r) eqn:E; [|now eauto].
  apply andb_true_iff in E. destruct E as [Ed Er].
  rewrite <- squeeze_starts_with_dot in Er.
  destruct (squeeze r) as [|e x]; [discriminate|].
  exists e, x. split; [reflexivity|]. cbn [starts_with_dot] in Er.
  apply is_dot_eq in Ed, Er. now subst.
Qed.

Lemma dot_not_space (c : char) : is_dot c = true -> isspace c = false.
Proof. intros H. apply terminator_not_space. now apply dot_is_terminator. Qed.

Lemma tokens_squeeze (s : str) :
  Spec.tokens (squeeze s) = map squeeze (Spec.tokens s).
Proof.
  induction s as [|c r IH]; [reflexivity|].
  cbn [squeeze]. destruct (is_dot c && starts_with_dot r) eqn:E.
  - apply andb_true_iff in E. destruct E as [Ec Er].
    destruct r as [|d t]; [discriminate|]. cbn [starts_with_dot] in Er.
    rewrite (tokens_cons c) by now apply dot_not_space.
    rewrite (dot_not_space d Er).
    destruct (tokens_head d t (dot_not_space d Er)) as [tok [toks Et]].
    rewrite Et in IH |- *. rewrite IH. cbn [map]. f_equal.
    now rewrite (squeeze_cons2 c d tok), Ec, Er.
  - destruct (isspace c) eqn:Es.
    + now rewrite !tokens_space.
    + rewrite (tokens_cons c (squeeze r)), (tokens_cons c r) by assumption.
      destruct r as [|d t].
      * cbn. now rewrite andb_false_r.
      * destruct (squeeze_cons_shape d t) as [e [x [Eq He]]].
        rewrite Eq, He. rewrite <- Eq, IH.
        cbn [starts_with_dot] in E.
        destruct (isspace d) eqn:Ed.
        -- cbn [map]. f_equal. cbn. now rewrite andb_false_r.
        -- destruct (tokens_head d t Ed) as [tok [toks Et]]. rewrite Et.
           cbn [map]. f_equal. now rewrite (squeeze_cons2 c d tok), E.
Qed.

Lemma counted_squeeze (tok : str) : counted (squeeze tok) = counted tok.
Proof.
  unfold counted. f_equal. induction tok as [|c r IH]; [reflexivity|].
  cbn [squeeze]. destruct (is_dot c && starts_with_dot r) eqn:E.
  - apply andb_true_iff in E. destruct E as [Ec Er].
    rewrite IH. cbn [forallb]. rewrite (dot_not_decimal c Ec).
    destruct r as [|d t]; [discriminate|]. cbn [starts_with_dot] in Er.
    cbn [forallb]. now rewrite (dot_not_decimal d Er).
  - cbn [forallb]. now rewrite IH.
Qed.

Lemma counted_tokens_squeeze (s : str) :
  filter counted (Spec.tokens (squeeze s)) =
  map squeeze (filter counted (Spec.tokens s)).
Proof.
  rewrite tokens_squeeze.
  induction (Spec.tokens s) as [|tok toks IH]; [reflexivity|].
  cbn [map filter]. rewrite counted_squeeze.
  destruct (counted tok); cbn [map]; now rewrite IH.
Qed.

(** ** The modes *)

Lemma mode_cases (mode : str) :
  mode = Letters \/ mode = Words \/ mode = Sentences \/ recognized mode = false.
Proof.
  unfold recognized.
  destruct (str_eqb mode Letters) eqn:El; [left; now apply str_eqb_eq|].
  destruct (str_eqb mode Words) eqn:Ew; [right; left; now apply str_eqb_eq|].
  destruct (str_eqb mode Sentences) eqn:Es;
    [right; right; left; now apply str_eqb_eq|].
  now repeat right.
Qed.

Lemma unrecognized_compute (text mode : str) :
  recognized mode = false -> primaryCount (compute text mode) = 0.
Proof.
  intros H. rewrite compute_unfold. cbn [primaryCount].
  now apply primary_unrecognized.
Qed.

Lemma compute_eq (a b : MetricsResult) :
  primaryCount a = primaryCount b -> digitCount a = digitCount b -> a = b.
Proof. destruct a, b. cbn. now intros -> ->. Qed.

Lemma sentences_count_squeeze (text : str) :
  sentences_count (squeeze text) = sentences_count text.
Proof. now rewrite !sentences_count_closed, squeeze_idem. Qed.

(** X4. A run of dots counts as one dot in every respect: normalizing the
    text beforehand changes no count, in any mode. *)
Theorem X4_dot_runs_change_no_count (text mode : str) :
  compute (sub_dots text) mode = compute text mode.
Proof.
  rewrite sub_dots_squeeze. apply compute_eq.
  - destruct (mode_cases mode) as [->|[->|[->|H]]].
    + rewrite !letters_count_count. apply squeeze_count.
      intros c Hc. rewrite spec_letter_agrees. now apply dot_not_letter.
    + rewrite !words_compute, counted_tokens_squeeze. now rewrite length_map.
    + rewrite !sentences_compute. apply sentences_count_squeeze.
    + now rewrite !unrecognized_compute.
  - rewrite !digitCount_count. apply squeeze_count, dot_not_decimal.
Qed.

(** ** Words: the tokens of a text *)

Lemma tokens_concat (s : str) :
  concat (Spec.tokens s) = filter (fun c => negb (isspace c)) s.
Proof.
  induction s as [|c r IH]; [reflexivity|].
  cbn [filter]. destruct (isspace c) eqn:Ec; cbn [negb].
  - now rewrite tokens_space.
  - rewrite tokens_cons by assumption. destruct r as [|d t]; [reflexivity|].
    destruct (isspace d) eqn:Ed; [cbn [concat app]; now rewrite IH|].
    destruct (tokens_head d t Ed) as [tok [toks E]].
    rewrite E in IH |- *. cbn [concat app] in *. now rewrite IH.
Qed.

(** X5. In Words mode the list [words] of the program is the list of the
    maximal whitespace-free substrings of the text as typed: none is
    empty, none holds whitespace, and together they hold the characters of
    the text that are not whitespace, in order.  The count is the number
    of those that are not made of decimal digits only. *)
Theorem X5_words_are_tokens (text : str) :
  split (strip (get_all text)) = Spec.tokens text /\
  Forall (fun tok => truthy tok = true /\
                     forallb (fun c => negb (isspace c)) tok = true)
         (Spec.tokens text) /\
  concat (Spec.tokens text) = filter (fun c => negb (isspace c)) text /\
  primaryCount (compute text Words) =
    Z.of_nat (List.length
                (filter (fun tok => negb (forallb is_decimal tok))
                        (Spec.tokens text))).
Proof.
  split; [now rewrite widget_text, split_tokens, tokens_strip|].
  split; [|split; [apply tokens_concat|apply words_count_tokens]].
  eapply Forall_impl; [|apply tokens_sound]. cbv beta.
  intros tok [H1 [H2 _]]. now split.
Qed.

(** X6. Two texts joined by whitespace have the words of both: the Words
    count of [a + w + b], for a non-empty string of whitespace [w], is the
    sum of the Words counts of [a] and [b]. *)
Theorem X6_words_additive (a w b : str) :
  Spec.Whitespace w -> truthy w = true ->
  primaryCount (compute (a ++ w ++ b) Words) =
  primaryCount (compute a Words) + primaryCount (compute b Words).
Proof.
  intros Hw Hn. apply blank_Whitespace in Hw.
  rewrite !words_compute, tokens_app_space by assumption.
  rewrite filter_app, length_app. lia.
Qed.

Lemma X6_words_additive_witness :
  Spec.Whitespace [32%N; 10%N] /\ truthy [32%N; 10%N] = true /\
  primaryCount (compute (lit "one 2 three" ++ [32%N; 10%N] ++ lit "4 five") Words) =
  primaryCount (compute (lit "one 2 three") Words) +
  primaryCount (compute (lit "4 five") Words).
Proof.
  assert (Hw : Spec.Whitespace [32%N; 10%N]) by (repeat constructor).
  split; [exact Hw|]. split; [reflexivity|].
  exact (X6_words_additive (lit "one 2 three") [32%N; 10%N] (lit "4 five")
           Hw eq_refl).
Defined.

(** X7. Reversing the characters of the text does not change the Words
    count, and neither does the reverse action. *)
Theorem X7_words_reversal (text : str) (app : App) :
  primaryCount (compute (reversed text) Words) =
    primaryCount (compute text Words) /\
  primaryCount (compute (input_text (revert_string app)) Words) =
    primaryCount (compute (input_text app) Words).
Proof.
  assert (W : forall t, primaryCount (compute (reversed t) Words) =
                        primaryCount (compute t Words)).
  { intros t. rewrite !words_compute. unfold reversed.
    now rewrite counted_tokens_rev. }
  split; [apply W|]. rewrite revert_string_input.
  destruct (truthy (strip (input_text app))); [|reflexivity].
  rewrite compute_reversed_strip. apply W.
Qed.

(** X8. The Letters count and the digit count of a concatenation are the
    sums of those of its parts. *)
Theorem X8_letters_digits_additive (a b mode : str) :
  primaryCount (compute (a ++ b) Letters) =
    primaryCount (compute a Letters) + primaryCount (compute b Letters) /\
  digitCount (compute (a ++ b) mode) =
    digitCount (compute a mode) + digitCount (compute b mode).
Proof.
  rewrite !letters_count_count, !digitCount_count, !count_app. split; reflexivity.
Qed.

(** X9. On a text of ASCII characters the digit count is the number of
    the characters ['0'] to ['9'], and the Words count is the number of
    tokens that are not made of the characters ['0'] to ['9'] only. *)
Theorem X9_ascii_text (text mode : str) :
  Forall (fun c => (c < 128)%N) text ->
  digitCount (compute text mode) = Spec.count Spec.ascii_digit text /\
  primaryCount (compute text Words) =
    Z.of_nat (List.length
                (filter (fun tok => negb (forallb Spec.ascii_digit tok))
                        (Spec.tokens text))).
Proof.
  intros H. split; [now apply ascii_digitCount|now apply ascii_words_count].
Qed.

Lemma X9_ascii_text_witness :
  Forall (fun c => (c < 128)%N) (lit "3.14 is pi 42") /\
  digitCount (compute (lit "3.14 is pi 42") Sentences) =
    Spec.count Spec.ascii_digit (lit "3.14 is pi 42") /\
  primaryCount (compute (lit "3.14 is pi 42") Words) =
    Z.of_nat (List.length
                (filter (fun tok => negb (forallb Spec.ascii_digit tok))
                        (Spec.tokens (lit "3.14 is pi 42")))).
Proof.
  assert (H : Forall (fun c => (c < 128)%N) (lit "3.14 is pi 42"))
    by (repeat constructor).
  split; [exact H|].
  exact (X9_ascii_text (lit "3.14 is pi 42") Sentences H).
Defined.

(** ** The reverse action on the whole state *)

Lemma update_count_set_input (app : App) (content : str) :
  update_count (set_input app content) =
  {| input_text := content;
     count_mode := count_mode app;
     result_text := (count_mode app, primary_count (strip content) (count_mode app));
     number_count_text := number_count (strip content) |}.
Proof.
  unfold update_count, set_input. cbn [input_text count_mode].
  now rewrite widget_text.
Qed.

(** X10. When the text is not blank, the reverse action applied twice
    leaves the state that [update_count] produces, but for the widget,
    which then holds the stripped text: the two labels show the counts of
    the original text, whatever the mode.  When the text is blank the
    action does nothing. *)
Theorem X10_revert_twice_state (app : App) :
  revert_string (revert_string app) =
  if truthy (strip (input_text app))
  then set_input (update_count app) (strip (input_text app))
  else app.
Proof.
  unfold revert_string at 2. rewrite widget_text.
  destruct (truthy (strip (input_text app))) eqn:E.
  - unfold revert_string. rewrite update_count_set_input.
    cbn [input_text]. rewrite widget_text, strip_reversed_strip.
    unfold reversed at 1. rewrite truthy_rev, E.
    rewrite update_count_set_input. cbn [count_mode].
    unfold reversed. rewrite rev_involutive, strip_idem.
    unfold set_input, update_count. cbn [input_text count_mode result_text
      number_count_text]. now rewrite widget_text.
  - unfold revert_string. now rewrite widget_text, E.
Qed.

(** ** Bounds on the counts *)

Lemma count_le_length (cls : char -> bool) (s : str) :
  Spec.count cls s <= Z.of_nat (List.length s).
Proof.
  induction s as [|c r IH]; [reflexivity|].
  cbn [Spec.count List.length]. destruct (cls c); lia.
Qed.

Lemma letter_ranges (c : char) :
  Spec.ascii_letter c = true -> (97 <= c <= 122)%N \/ (65 <= c <= 90)%N.
Proof.
  unfold Spec.ascii_letter, in_range.
  change (N_of_ascii "a") with 97%N. change (N_of_ascii "z") with 122%N.
  change (N_of_ascii "A") with 65%N. change (N_of_ascii "Z") with 90%N.
  destruct (N.leb_spec 97 c), (N.leb_spec c 122), (N.leb_spec 65 c),
    (N.leb_spec c 90); cbn; try discriminate; intros _; lia.
Qed.

Lemma letter_not_decimal (c : char) :
  Spec.ascii_letter c = true -> is_decimal c = false.
Proof.
  intros H. apply letter_ranges in H.
  rewrite ascii_decimal by lia. unfold Spec.ascii_digit, in_range.
  destruct (N.leb_spec 48 c), (N.leb_spec c 57); cbn; try reflexivity; lia.
Qed.

Lemma letters_digits_le_length (s : str) :
  Spec.count Spec.ascii_letter s + Spec.count is_decimal s <=
  Z.of_nat (List.length s).
Proof.
  induction s as [|c r IH]; [reflexivity|].
  cbn [Spec.count List.length].
  destruct (Spec.ascii_letter c) eqn:El.
  - rewrite (letter_not_decimal c El). lia.
  - destruct (is_decimal c); lia.
Qed.

Lemma tokens_need_separators (s : str) :
  (2 * List.length (Spec.tokens s) <=
   List.length s + match s with
                   | [] => 0
                   | c :: _ => if isspace c then 0 else 1
                   end)%nat.
Proof.
  induction s as [|c r IH]; [reflexivity|].
  destruct (isspace c) eqn:Ec.
  - rewrite tokens_space by assumption. cbn [List.length].
    destruct r as [|d t]; [cbn in *; lia|]. destruct (isspace d); lia.
  - rewrite tokens_cons by assumption. destruct r as [|d t]; [cbn; lia|].
    destruct (isspace d) eqn:Ed; [cbn [List.length] in *; lia|].
    destruct (tokens_head d t Ed) as [tok [toks E]]. rewrite E in IH |- *.
    cbn [List.length] in *. lia.
Qed.

(** X11. No count exceeds the length of the text: in every mode the
    primary count lies between 0 and the number of characters; the
    letters and the digits together are at most the characters; and as
    two words need whitespace between them, twice the Words count is at
    most the length plus one. *)
Theorem X11_counts_bounded (text mode : str) :
  0 <= primaryCount (compute text mode) <= Z.of_nat (List.length text) /\
  primaryCount (compute text Letters) + digitCount (compute text mode) <=
    Z.of_nat (List.length text) /\
  2 * primaryCount (compute text Words) <= Z.of_nat (List.length text) + 1.
Proof.
  assert (W : 2 * primaryCount (compute text Words) <=
              Z.of_nat (List.length text) + 1).
  { rewrite words_compute.
    pose proof (filter_length_le counted (Spec.tokens text)) as H1.
    pose proof (tokens_need_separators text) as H2.
    destruct text as [|c r]; [cbn in *; lia|].
    destruct (isspace c); lia. }
  split; [|split; [|exact W]].
  - destruct (mode_cases mode) as [->|[->|[->|H]]].
    + rewrite letters_count_count.
      pose proof (count_nonneg Spec.ascii_letter text).
      pose proof (count_le_length Spec.ascii_letter text). lia.
    + rewrite words_compute.
      pose proof (filter_length_le counted (Spec.tokens text)).
      pose proof (tokens_length_le text). lia.
    + pose proof (count_le_length is_terminator text).
      pose proof (sentences_compute text) as E.
      rewrite sentences_count_closed in E.
      pose proof (nonblank_segments_le
        (removelast (Spec.split_at_terminators (squeeze text)))) as H1.
      apply Nat2Z.inj_le in H1. rewrite closed_segments_length in H1.
      pose proof (squeeze_count_le is_terminator text). lia.
    + rewrite unrecognized_compute by assumption. lia.
  - rewrite letters_count_count, digitCount_count.
    apply letters_digits_le_length.
Qed.

Arguments str_eqb : simpl never.

(** ** The geometric calculator: the grid of buttons *)

Lemma cell_even (r : Z) : GeometryApp.cell (2 * r) = (r, 0).
Proof.
  unfold GeometryApp.cell. f_equal.
  - symmetry. apply (Z.div_unique (2 * r) 2 r 0); lia.
  - symmetry. apply (Z.mod_unique (2 * r) 2 r 0); lia.
Qed.

Lemma cell_odd (r : Z) : GeometryApp.cell (2 * r + 1) = (r, 1).
Proof.
  unfold GeometryApp.cell. f_equal.
  - symmetry. apply (Z.div_unique (2 * r + 1) 2 r 1); lia.
  - symmetry. apply (Z.mod_unique (2 * r + 1) 2 r 1); lia.
Qed.

Lemma cell_injective (j k : Z) : GeometryApp.cell j = GeometryApp.cell k -> j = k.
Proof.
  unfold GeometryApp.cell. intros E. injection E as Ed Em.
  rewrite (Z.div_mod j 2), (Z.div_mod k 2) by lia. now rewrite Ed, Em.
Qed.

Lemma place_buttons_cells (names : list str) (col row : Z) :
  col = 0 \/ col = 1 ->
  GeometryApp.place_buttons names col row =
  combine names
    (map (fun i => GeometryApp.cell (2 * row + col + Z.of_nat i))
         (seq 0 (List.length names))).
Proof.
  revert col row. induction names as [|name rest IH]; intros col row Hc;
    [reflexivity|].
  cbn [GeometryApp.place_buttons List.length seq map combine].
  rewrite <- seq_shift, map_map.
  destruct Hc as [-> | ->].
  - change (0 + 1 >? 1) with false. cbv iota.
    rewrite IH by now right. f_equal.
    + f_equal. replace (2 * row + 0 + Z.of_nat 0) with (2 * row) by lia.
      symmetry. apply cell_even.
    + f_equal. apply map_ext. intros i. f_equal. lia.
  - change (1 + 1 >? 1) with true. cbv iota.
    rewrite IH by now left. f_equal.
    + f_equal. replace (2 * row + 1 + Z.of_nat 0) with (2 * row + 1) by lia.
      symmetry. apply cell_odd.
    + f_equal. apply map_ext. intros i. f_equal. lia.
Qed.

Lemma map_fst_combine_seq {A B : Type} (l : list A) (f : nat -> B) (a : nat) :
  map fst (combine l (map f (seq a (List.length l)))) = l /\
  map snd (combine l (map f (seq a (List.length l)))) =
    map f (seq a (List.length l)).
Proof.
  revert a. induction l as [|x r IH]; intros a; [now split|].
  cbn [List.length seq map combine fst snd].
  destruct (IH (S a)) as [H1 H2]. now rewrite H1, H2.
Qed.

Lemma NoDup_map_seq {B : Type} (f : nat -> B) (a n : nat) :
  (forall i j, f i = f j -> i = j) -> NoDup (map f (seq a n)).
Proof.
  intros Hf. revert a. induction n as [|n IH]; intros a; [constructor|].
  cbn [seq map]. constructor; [|apply IH].
  intros H. apply in_map_iff in H. destruct H as [i [E Hi]].
  apply Hf in E. apply in_seq in Hi. lia.
Qed.

(** X12. The buttons [_show_shape_selection] grids keep the order of the
    names, the [i]-th (from 0) stands in row [i / 2] and column
    [i mod 2], and no two buttons share a cell; a shape type that is not a
    key of [SHAPE_MAP] gets no button. *)
Theorem X12_button_grid (names : list str) (shape_type : str) :
  GeometryApp.place_buttons names 0 0 =
    combine names
      (map (fun i => (Z.of_nat i / 2, Z.of_nat i mod 2))
           (seq 0 (List.length names))) /\
  map fst (GeometryApp.place_buttons names 0 0) = names /\
  NoDup (map snd (GeometryApp.place_buttons names 0 0)) /\
  map fst (GeometryApp.show_shape_selection shape_type) =
    match GeometryApp.dict_get GeometryApp.SHAPE_MAP shape_type with
    | Some shapes => GeometryApp.keys shapes
    | None => []
    end /\
  NoDup (map snd (GeometryApp.show_shape_selection shape_type)).
Proof.
  assert (P : forall l, GeometryApp.place_buttons l 0 0 =
                combine l (map (fun i => GeometryApp.cell (Z.of_nat i))
                               (seq 0 (List.length l)))).
  { intros l. rewrite place_buttons_cells by now left. reflexivity. }
  assert (F : forall l, map fst (GeometryApp.place_buttons l 0 0) = l).
  { intros l. rewrite P. apply map_fst_combine_seq. }
  assert (N : forall l, NoDup (map snd (GeometryApp.place_buttons l 0 0))).
  { intros l. rewrite P.
    rewrite (proj2 (map_fst_combine_seq l _ 0%nat)).
    apply NoDup_map_seq. intros i j E. apply cell_injective in E. lia. }
  split; [apply P|]. split; [apply F|]. split; [apply N|].
  unfold GeometryApp.show_shape_selection.
  destruct (GeometryApp.dict_get GeometryApp.SHAPE_MAP shape_type) as [shapes|];
    [|split; [reflexivity|constructor]].
  destruct shapes as [|x l]; [split; [reflexivity|constructor]|].
  split; [apply F|apply N].
Qed.

(** ** The geometric calculator: the table and the classes *)

Ltac pick_entry H k :=
  match type of H with
  | (if str_eqb ?n ?key then _ else _) = Some _ =>
      let E := fresh "E" in
      destruct (str_eqb n key) eqn:E;
      [apply str_eqb_eq in E; subst n; injection H as <-; k
      |pick_entry H k]
  | None = Some _ => discriminate H
  end.

(** X13. [SHAPE_MAP] agrees with the classes it names.  For every entry
    of the table and every list of as many values as the entry has
    parameters, calling the class on the values never fails on the number
    of arguments: it raises [ValueError] exactly when a value is negative,
    and otherwise yields an instance whose [get_params] maps the
    parameter names of the entry, in order, to the values, and whose
    [__str__] is the key of the entry. *)
Theorem X13_shape_map_round_trip
    (num : Type) (negative : num -> bool)
    (shape_type shape_name : str)
    (shapes : GeometryApp.dict GeometryApp.shape_info)
    (info : GeometryApp.shape_info) (values : list num) :
  GeometryApp.dict_get GeometryApp.SHAPE_MAP shape_type = Some shapes ->
  GeometryApp.dict_get shapes shape_name = Some info ->
  List.length values = List.length (GeometryApp.info_params info) ->
  match GeometryApp.construct negative (GeometryApp.info_class info) values with
  | inl e =>
      (exists message, e = GeometryApp.ValueError message) /\
      existsb negative values = true
  | inr s =>
      existsb negative values = false /\
      GeometryApp.get_params s = combine (GeometryApp.info_params info) values /\
      GeometryApp.to_str s = shape_name
  end.
Proof.
  intros H1 H2 H3. unfold GeometryApp.SHAPE_MAP in H1.
  cbn [GeometryApp.dict_get] in H1.
  pick_entry H1 ltac:(
    cbn [GeometryApp.dict_get] in H2;
    pick_entry H2 ltac:(
      cbn [GeometryApp.info_params List.length] in H3;
      destruct values as [|v1 [|v2 [|v3 [|v4 l]]]]; try discriminate H3;
      cbn [GeometryApp.construct GeometryApp.info_class GeometryApp.info_params
           existsb combine];
      repeat match goal with
             | |- context [negative ?v] => destruct (negative v)
             end;
      cbn [orb]; repeat split; eauto)).
Qed.

Lemma X13_shape_map_round_trip_witness :
  GeometryApp.dict_get GeometryApp.SHAPE_MAP (lit "3D") =
    Some [ (lit "Block",
            {| GeometryApp.info_class := GeometryApp.Block;
               GeometryApp.info_params := [lit "Length"; lit "Width"; lit "Height"] |});
           (lit "Sphere",
            {| GeometryApp.info_class := GeometryApp.Sphere;
               GeometryApp.info_params := [lit "Radius"] |});
           (lit "Tetrahedron",
            {| GeometryApp.info_class := GeometryApp.Tetrahedron;
               GeometryApp.info_params := [lit "Edge Length"] |}) ] /\
  GeometryApp.construct (fun x => x <? 0) GeometryApp.Block [2; 3; 4] =
    inr (GeometryApp.block 2 3 4) /\
  GeometryApp.get_params (GeometryApp.block 2 3 4) =
    [(lit "Length", 2); (lit "Width", 3); (lit "Height", 4)].
Proof.
  split; [reflexivity|].
  pose proof (X13_shape_map_round_trip Z (fun x => x <? 0)
                (lit "3D") (lit "Block") _
                {| GeometryApp.info_class := GeometryApp.Block;
                   GeometryApp.info_params :=
                     [lit "Length"; lit "Width"; lit "Height"] |}
                [2; 3; 4] eq_refl eq_refl eq_refl) as H.
  cbn in H. destruct H as [_ [H _]]. split; [reflexivity|exact H].
Defined.

(** ** The function plotter: the unit button *)

Lemma toggle_Radians :
  FunctionPlotterApp.toggle_units FunctionPlotterApp.Radians =
  FunctionPlotterApp.Degrees.
Proof. reflexivity. Qed.

Lemma toggle_Degrees :
  FunctionPlotterApp.toggle_units FunctionPlotterApp.Degrees =
  FunctionPlotterApp.Radians.
Proof. reflexivity. Qed.

(** X14. The unit button alternates between the two units: starting from
    ["Radians"], the initial value, [n] presses leave ["Radians"] when [n]
    is even and ["Degrees"] when it is odd; and whatever the value of the
    variable, one press yields one of the two units, ["Degrees"] exactly
    when the value was ["Radians"]. *)
Theorem X14_toggle_units_alternates (n : nat) (unit_var : str) :
  Nat.iter n FunctionPlotterApp.toggle_units FunctionPlotterApp.Radians =
    (if Nat.even n then FunctionPlotterApp.Radians
     else FunctionPlotterApp.Degrees) /\
  FunctionPlotterApp.toggle_units unit_var =
    (if str_eqb unit_var FunctionPlotterApp.Radians
     then FunctionPlotterApp.Degrees else FunctionPlotterApp.Radians) /\
  FunctionPlotterApp.toggle_units
    (FunctionPlotterApp.toggle_units
       (FunctionPlotterApp.toggle_units unit_var)) =
    FunctionPlotterApp.toggle_units unit_var.
Proof.
  split; [|split; [reflexivity|]].
  - induction n as [|n IH]; [reflexivity|].
    rewrite Nat.iter_succ, IH, Nat.even_succ, <- Nat.negb_even.
    destruct (Nat.even n); reflexivity.
  - unfold FunctionPlotterApp.toggle_units.
    destruct (str_eqb unit_var (lit "Radians")); reflexivity.
Qed.

(** ** Sentences: the normalization step and the count *)

Lemma split_at_hd_tl (x : str) :
  Spec.split_at_terminators x =
  hd [] (Spec.split_at_terminators x) :: tl (Spec.split_at_terminators x).
Proof.
  destruct (Spec.split_at_terminators x) eqn:E; [|reflexivity].
  now apply split_at_nonempty in E.
Qed.

Lemma split_at_cons (c : char) (x : str) :
  Spec.split_at_terminators (c :: x) =
  if is_terminator c then [] :: Spec.split_at_terminators x
  else (c :: hd [] (Spec.split_at_terminators x)) :: tl (Spec.split_at_terminators x).
Proof.
  cbn [Spec.split_at_terminators]. destruct (is_terminator c); [reflexivity|].
  destruct (Spec.split_at_terminators x) eqn:E; [|reflexivity].
  now apply split_at_nonempty in E.
Qed.

Lemma nonblank_segments_cons (h : str) (t : list str) :
  nonblank_segments (h :: t) =
  ((if blank h then 0 else 1) + nonblank_segments t)%nat.
Proof.
  unfold nonblank_segments. cbn [filter]. now destruct (blank h).
Qed.

Lemma split_at_squeeze (s : str) :
  hd [] (Spec.split_at_terminators (squeeze s)) =
    hd [] (Spec.split_at_terminators s) /\
  nonblank_segments (tl (Spec.split_at_terminators (squeeze s))) =
    nonblank_segments (tl (Spec.split_at_terminators s)).
Proof.
  induction s as [|c r [IH1 IH2]]; [now split|].
  cbn [squeeze]. destruct (is_dot c && starts_with_dot r) eqn:E.
  - apply andb_true_iff in E. destruct E as [Ec Er].
    rewrite (split_at_cons c r), (dot_is_terminator c Ec). cbn [hd tl].
    destruct r as [|d t]; [discriminate|]. cbn [starts_with_dot] in Er.
    assert (Hd : hd [] (Spec.split_at_terminators (d :: t)) = []).
    { now rewrite split_at_cons, (dot_is_terminator d Er). }
    split; [congruence|].
    rewrite IH2. rewrite (split_at_hd_tl (d :: t)) at 2. rewrite Hd.
    now rewrite nonblank_segments_cons.
  - rewrite !split_at_cons. destruct (is_terminator c); cbn [hd tl].
    + split; [reflexivity|].
      rewrite (split_at_hd_tl (squeeze r)), (split_at_hd_tl r).
      now rewrite !nonblank_segments_cons, IH1, IH2.
    + now rewrite IH1, IH2.
Qed.

Lemma nonblank_segments_squeeze (s : str) :
  nonblank_segments (Spec.split_at_terminators (squeeze s)) =
  nonblank_segments (Spec.split_at_terminators s).
Proof.
  destruct (split_at_squeeze s) as [H1 H2].
  rewrite (split_at_hd_tl (squeeze s)), (split_at_hd_tl s).
  now rewrite !nonblank_segments_cons, H1, H2.
Qed.

Lemma nonblank_closed (s : str) :
  nonblank_segments (Spec.split_at_terminators s) =
  (nonblank_segments (removelast (Spec.split_at_terminators s)) +
   (if ends_term s || blank s then 0 else 1))%nat.
Proof.
  destruct (split_at_last s) as [closed [rest [E [Hb _]]]].
  rewrite E, removelast_last, nonblank_segments_app, nonblank_segments_cons.
  rewrite Hb. change (nonblank_segments []) with 0%nat.
  destruct (ends_term s || blank s); lia.
Qed.

Lemma closed_squeeze (s : str) :
  nonblank_segments (removelast (Spec.split_at_terminators (squeeze s))) =
  nonblank_segments (removelast (Spec.split_at_terminators s)).
Proof.
  pose proof (nonblank_segments_squeeze s) as H.
  rewrite (nonblank_closed (squeeze s)), (nonblank_closed s) in H.
  rewrite squeeze_ends_term, squeeze_blank_eq in H. lia.
Qed.

Lemma sentences_count_plain (text : str) :
  sentences_count text =
  Z.of_nat (nonblank_segments (removelast (Spec.split_at_terminators text))).
Proof. now rewrite sentences_count_closed, closed_squeeze. Qed.

(** X15. The normalization step changes neither the provisional count
    nor the Sentences count: a run of dots only adds empty segments, which
    are dropped anyway.  The Sentences count is the number of segments of
    the text itself, split at the terminators, other than the last, that
    are not empty once stripped. *)
Theorem X15_normalization_is_redundant (text : str) :
  provisional_count text =
    Z.of_nat (List.length
                (filter (fun s => truthy (strip s)) (split_terminators text))) /\
  primaryCount (compute text Sentences) =
    Z.of_nat (List.length
                (filter (fun s => truthy (strip s))
                        (removelast (split_terminators text)))).
Proof.
  rewrite !truthy_strip_filter, !split_terminators_spec. split.
  - rewrite provisional_count_nonblank. f_equal. apply nonblank_segments_squeeze.
  - rewrite sentences_compute. apply sentences_count_plain.
Qed.

(** ** Sentences: texts put one after the other *)

Lemma map_removelast {A B : Type} (f : A -> B) (l : list A) :
  map f (removelast l) = removelast (map f l).
Proof.
  induction l as [|x r IH]; [reflexivity|].
  destruct r as [|y t]; [reflexivity|].
  cbn [removelast map] in *. now rewrite IH.
Qed.

Lemma closed_pad_l (w s : str) :
  blank w = true ->
  nonblank_segments (removelast (Spec.split_at_terminators (w ++ s))) =
  nonblank_segments (removelast (Spec.split_at_terminators s)).
Proof.
  intros H. rewrite !nonblank_segments_map, !map_removelast.
  now rewrite split_at_pad_l.
Qed.

Lemma closed_after_terminated (a b : str) :
  ends_term a = true ->
  nonblank_segments (removelast (Spec.split_at_terminators (a ++ b))) =
  (nonblank_segments (removelast (Spec.split_at_terminators a)) +
   nonblank_segments (removelast (Spec.split_at_terminators b)))%nat.
Proof.
  intros H. apply ends_term_spec in H.
  destruct H as [p [c [w [E [Hc Hw]]]]]. apply blank_Whitespace in Hw. subst a.
  rewrite <- app_assoc. cbn [app].
  rewrite !split_at_app_terminator by assumption.
  rewrite (split_at_terminator_free w) by now apply blank_terminator_free.
  rewrite removelast_last.
  rewrite removelast_app by apply split_at_nonempty.
  now rewrite nonblank_segments_app, closed_pad_l.
Qed.

(** X16. Text put after a text that ends with a terminator, optionally
    followed by whitespace, adds its own sentences: the Sentences count
    of [a + b] is then the sum of the Sentences counts of [a] and [b]. *)
Theorem X16_sentences_additive (a b : str) :
  Spec.EndsWithTerminator a ->
  primaryCount (compute (a ++ b) Sentences) =
  primaryCount (compute a Sentences) + primaryCount (compute b Sentences).
Proof.
  intros H. apply ends_term_spec in H.
  rewrite !sentences_compute, !sentences_count_plain.
  rewrite closed_after_terminated by assumption. lia.
Qed.

Lemma X16_sentences_additive_witness :
  Spec.EndsWithTerminator (lit "Wait... really?! ") /\
  primaryCount (compute (lit "Wait... really?! " ++ lit "Yes. Not yet") Sentences) =
  primaryCount (compute (lit "Wait... really?! ") Sentences) +
  primaryCount (compute (lit "Yes. Not yet") Sentences).
Proof.
  assert (H : Spec.EndsWithTerminator (lit "Wait... really?! ")).
  { exists (lit "Wait... really?"), 33%N, [32%N].
    split; [reflexivity|]. split; [reflexivity|]. repeat constructor. }
  split; [exact H|].
  exact (X16_sentences_additive (lit "Wait... really?! ") (lit "Yes. Not yet") H).
Defined.

(** ** Typing at the end of the text *)

Lemma grows_with_suffix (f : str -> Z) :
  (forall x c, f x <= f (x ++ [c])) -> forall t u, f t <= f (t ++ u).
Proof.
  intros Hf t u. revert t. induction u as [|c r IH]; intros t.
  - rewrite app_nil_r. lia.
  - replace (t ++ c :: r) with ((t ++ [c]) ++ r) by now rewrite <- app_assoc.
    specialize (Hf t c). specialize (IH (t ++ [c])). lia.
Qed.

Lemma counted_app (a b : str) : counted (a ++ b) = counted a || counted b.
Proof. unfold counted. now rewrite forallb_app, negb_andb. Qed.

Lemma filter_length_removelast (f : str -> bool) (l : list str) :
  l <> [] ->
  List.length (filter f l) =
  (List.length (filter f (removelast l)) + (if f (last l []) then 1 else 0))%nat.
Proof.
  intros N. destruct (exists_last N) as [l' [a ->]].
  rewrite removelast_last, last_last, filter_app, length_app. cbn [filter].
  now destruct (f a).
Qed.

Lemma words_snoc (x : str) (c : char) :
  (List.length (filter counted (Spec.tokens x)) <=
   List.length (filter counted (Spec.tokens (x ++ [c]))))%nat.
Proof.
  destruct (isspace c) eqn:Ec.
  - rewrite tokens_pad_r by (cbn; now rewrite Ec). lia.
  - rewrite tokens_snoc by assumption. destruct (ends_space x).
    + rewrite filter_app, length_app. lia.
    + destruct (Spec.tokens x) as [|t0 ts] eqn:E; [cbn [filter List.length]; lia|].
      rewrite (filter_length_removelast counted (t0 :: ts)) by discriminate.
      rewrite filter_app, length_app. cbn [filter]. rewrite counted_app.
      destruct (counted (last (t0 :: ts) [])); cbn [orb List.length]; [lia|].
      destruct (counted [c]); cbn [List.length]; lia.
Qed.

Lemma split_at_snoc_terminator (x : str) (c : char) :
  is_terminator c = true ->
  Spec.split_at_terminators (x ++ [c]) = Spec.split_at_terminators x ++ [[]].
Proof. intros H. now rewrite split_at_app_terminator. Qed.

Lemma terminator_free_app (a b : str) :
  terminator_free (a ++ b) = terminator_free a && terminator_free b.
Proof. apply forallb_app. Qed.

Lemma closed_snoc (x : str) (c : char) :
  (nonblank_segments (removelast (Spec.split_at_terminators x)) <=
   nonblank_segments (removelast (Spec.split_at_terminators (x ++ [c]))))%nat.
Proof.
  destruct (is_terminator c) eqn:Ec.
  - rewrite split_at_snoc_terminator, removelast_last by assumption.
    rewrite (nonblank_closed x). lia.
  - assert (Fc : terminator_free [c] = true) by (cbn; now rewrite Ec).
    destruct (last_terminator x) as [Hx|[p [d [b [E [Hd Hb]]]]]].
    + rewrite (split_at_terminator_free x) by assumption.
      rewrite (split_at_terminator_free (x ++ [c]))
        by now rewrite terminator_free_app, Hx, Fc.
      cbn. lia.
    + subst x. rewrite <- app_assoc. cbn [app].
      rewrite !split_at_app_terminator by assumption.
      rewrite (split_at_terminator_free b) by assumption.
      rewrite (split_at_terminator_free (b ++ [c]))
        by now rewrite terminator_free_app, Hb, Fc.
      rewrite !removelast_last. lia.
Qed.

(** X17. Typing at the end of the text never lowers a count: for every
    text, every text put after it and every mode, the primary count and
    the digit count of the longer text are at least those of the
    shorter. *)
Theorem X17_appending_never_lowers (text more mode : str) :
  primaryCount (compute text mode) <= primaryCount (compute (text ++ more) mode) /\
  digitCount (compute text mode) <= digitCount (compute (text ++ more) mode).
Proof.
  split.
  - destruct (mode_cases mode) as [->|[->|[->|H]]].
    + rewrite !letters_count_count, count_app.
      pose proof (count_nonneg Spec.ascii_letter more). lia.
    + apply (grows_with_suffix (fun t => primaryCount (compute t Words))).
      intros x c. rewrite !words_compute.
      apply Nat2Z.inj_le, words_snoc.
    + apply (grows_with_suffix (fun t => primaryCount (compute t Sentences))).
      intros x c. rewrite !sentences_compute, !sentences_count_plain.
      apply Nat2Z.inj_le, closed_snoc.
    + rewrite !unrecognized_compute by assumption. lia.
  - rewrite !digitCount_count, count_app.
    pose proof (count_nonneg is_decimal more). lia.
Qed.

(** ** The order of the characters *)

Lemma count_swap (cls : char -> bool) (a b : char) (s : str) :
  Spec.count cls (a :: b :: s) = Spec.count cls (b :: a :: s).
Proof. cbn [Spec.count]. lia. Qed.

(** X18. The Letters count and the digit count depend on which
    characters the text holds, not on their order: two texts with the
    same characters, each as many times, have the same Letters count and,
    in any mode, the same digit count. *)
Theorem X18_order_does_not_matter (a b mode : str) :
  (forall c : char, count_occ N.eq_dec a c = count_occ N.eq_dec b c) ->
  primaryCount (compute a Letters) = primaryCount (compute b Letters) /\
  digitCount (compute a mode) = digitCount (compute b mode).
Proof.
  intros H.
  assert (P : forall cls, Spec.count cls a = Spec.count cls b).
  { intros cls. revert b H. induction a as [|x r IH]; intros b H.
    - destruct b as [|y t]; [reflexivity|].
      specialize (H y). cbn in H. destruct (N.eq_dec y y); [discriminate|congruence].
    - assert (Hx : In x b).
      { apply (count_occ_In N.eq_dec). rewrite <- H. cbn.
        destruct (N.eq_dec x x); [lia|congruence]. }
      apply in_split in Hx. destruct Hx as [b1 [b2 ->]].
      rewrite count_app. cbn [Spec.count].
      rewrite (IH (b1 ++ b2)); [rewrite count_app; lia|].
      intros c. specialize (H c). rewrite count_occ_app in H |- *.
      cbn [count_occ] in H. destruct (N.eq_dec x c); lia. }
  now rewrite !letters_count_count, !digitCount_count, !P.
Qed.

Lemma X18_order_does_not_matter_witness :
  (forall c : char,
      count_occ N.eq_dec (lit "ab1") c = count_occ N.eq_dec (lit "1ba") c) /\
  primaryCount (compute (lit "ab1") Letters) =
    primaryCount (compute (lit "1ba") Letters) /\
  digitCount (compute (lit "ab1") Words) = digitCount (compute (lit "1ba") Words).
Proof.
  assert (H : forall c : char,
             count_occ N.eq_dec (lit "ab1") c = count_occ N.eq_dec (lit "1ba") c).
  { intros c. cbn [lit count_occ].
    destruct (N.eq_dec _ c), (N.eq_dec _ c), (N.eq_dec _ c); reflexivity. }
  split; [exact H|].
  exact (X18_order_does_not_matter (lit "ab1") (lit "1ba") Words H).
Defined.
